(** * SageMaker model processor: a shallow embedding of
    [datahub/ingestion/source/sagemaker_processors/models.py]
    and the properties of its three ingestion passes. *)

From Stdlib Require Import ZArith.
From stdpp Require Import gmap strings list sorting.

Local Open Scope string_scope.
Local Open Scope list_scope.

(** ** Python values, dictionaries and exceptions *)

(** The payloads of the client are [Dict[str, Any]].  A value is what such a
    payload can hold.  A [datetime] carries [int(d.timestamp() * 1000)]. *)
#[local] Unset Elimination Schemes.
Inductive value : Type :=
| VNone
| VStr (s : string)
| VInt (z : Z)
| VDatetime (ms : Z)
| VList (l : list value)
| VDict (d : list (string * value)).
#[local] Set Elimination Schemes.

(** A dictionary with string keys, in insertion order. *)
Abbreviation pydict := (list (string * value)).

Inductive exn : Type :=
| KeyError (k : string)
| TypeError
| AttributeError
| ClientError (msg : string).

Inductive result (A : Type) : Type :=
| Ok (a : A)
| Err (e : exn).
Arguments Ok {A} a.
Arguments Err {A} e.

Definition is_ok {A} (r : result A) : bool :=
  match r with Ok _ => true | Err _ => false end.

Module Dict.
(** [k in d] and [d.get(k)] on the first binding of [k]. *)
Fixpoint lookup (d : pydict) (k : string) : option value :=
  match d with
  | [] => None
  | (k', v) :: d' => if decide (k' = k) then Some v else lookup d' k
  end.

(** [d[k]] *)
Definition getitem (d : pydict) (k : string) : result value :=
  match lookup d k with
  | Some v => Ok v
  | None => Err (KeyError k)
  end.

(** [d.get(k, default)] *)
Definition get_default (d : pydict) (k : string) (default : value) : value :=
  match lookup d k with
  | Some v => v
  | None => default
  end.

(** [d.get(k)] *)
Definition get (d : pydict) (k : string) : value := get_default d k VNone.
End Dict.

(** [v.get(k)] on a value that has to be a dict. *)
Definition value_get (v : value) (k : string) : result value :=
  match v with
  | VDict d => Ok (Dict.get d k)
  | _ => Err AttributeError
  end.

(** [v[k]] on a value that has to be a dict. *)
Definition value_getitem (v : value) (k : string) : result value :=
  match v with
  | VDict d => Dict.getitem d k
  | _ => Err TypeError
  end.

(** Values used as keys of the string-keyed tables of the processor.  The
    client returns strings there; any other value is reported as a
    [TypeError]. *)
Definition as_str (v : value) : result string :=
  match v with
  | VStr s => Ok s
  | _ => Err TypeError
  end.

Definition as_list (v : value) : result (list value) :=
  match v with
  | VList l => Ok l
  | _ => Err TypeError
  end.

(** [d.timestamp() * 1000] truncated to an integer. *)
Definition timestamp_ms (v : value) : result Z :=
  match v with
  | VDatetime ms => Ok ms
  | _ => Err AttributeError
  end.

(** A hashable key looked up in a table keyed by strings: lists and dicts
    are unhashable, every other value that is not a string is simply not a
    key of the table. *)
Definition hash_key (v : value) : result (option string) :=
  match v with
  | VStr s => Ok (Some s)
  | VList _ | VDict _ => Err TypeError
  | _ => Ok None
  end.

(** ** [sorted]

    Python's [sorted] is stable; insertion from the right keeps an element
    before the later elements of equal key. *)
Section sorted.
Context {A : Type} (key : A → string).

Fixpoint insert_by (x : A) (l : list A) : list A :=
  match l with
  | [] => [x]
  | y :: l' =>
      if decide (String.le (key x) (key y)) then x :: y :: l'
      else y :: insert_by x l'
  end.

Definition sorted_by (l : list A) : list A := foldr insert_by [] l.
End sorted.

(** [sorted(l)] on a list of strings. *)
Definition py_sorted (l : list string) : list string := sorted_by (λ s, s) l.

(** ** Exceptions and the state of a run *)

Global Instance result_ret : MRet result := λ A a, Ok a.
Global Instance result_bind : MBind result := λ A B f r,
  match r with
  | Ok a => f a
  | Err e => Err e
  end.

(** ** The emitted records (the classes of [datahub.metadata]) *)

Inductive DeploymentStatusClass : Type :=
| OUT_OF_SERVICE | CREATING | UPDATING | ROLLING_BACK
| IN_SERVICE | DELETING | FAILED | UNKNOWN.

Inductive OwnershipTypeClass : Type :=
| DEVELOPER | DATAOWNER | DELEGATE | PRODUCER | CONSUMER | STAKEHOLDER.

Record OwnerClass : Type := { owner : value; type : OwnershipTypeClass }.

Inductive aspect : Type :=
| MLModelDeploymentPropertiesClass
    (createdAt : Z) (status : DeploymentStatusClass)
    (customProperties : list (string * string))
| MLModelPropertiesClass
    (date : Z) (deployments : list string)
    (customProperties : list (string * string))
    (trainingJobs downstreamJobs : list string)
| MLModelGroupPropertiesClass
    (createdAt : Z) (description : value)
    (customProperties : list (string * string)) (models : list string)
| OwnershipClass (owners : list OwnerClass).

Inductive snapshot : Type :=
| MLModelDeploymentSnapshot (urn : string) (aspects : list aspect)
| MLModelSnapshot (urn : string) (aspects : list aspect)
| MLModelGroupSnapshot (urn : string) (aspects : list aspect).

Record MetadataChangeEvent : Type := { proposedSnapshot : snapshot }.

Record MetadataWorkUnit : Type := { id : string; mce : MetadataChangeEvent }.

Definition wu_aspects (wu : MetadataWorkUnit) : list aspect :=
  match proposedSnapshot (mce wu) with
  | MLModelDeploymentSnapshot _ a | MLModelSnapshot _ a
  | MLModelGroupSnapshot _ a => a
  end.

Definition wu_urn (wu : MetadataWorkUnit) : string :=
  match proposedSnapshot (mce wu) with
  | MLModelDeploymentSnapshot u _ | MLModelSnapshot u _
  | MLModelGroupSnapshot u _ => u
  end.

(** The fields of the aspects of a record, read back. *)
Definition wu_status (wu : MetadataWorkUnit) : list DeploymentStatusClass :=
  omap (λ a, match a with
             | MLModelDeploymentPropertiesClass _ s _ => Some s
             | _ => None end) (wu_aspects wu).

Definition wu_deployments (wu : MetadataWorkUnit) : list (list string) :=
  omap (λ a, match a with
             | MLModelPropertiesClass _ d _ _ _ => Some d
             | _ => None end) (wu_aspects wu).

Definition wu_trainingJobs (wu : MetadataWorkUnit) : list (list string) :=
  omap (λ a, match a with
             | MLModelPropertiesClass _ _ _ t _ => Some t
             | _ => None end) (wu_aspects wu).

Definition wu_downstreamJobs (wu : MetadataWorkUnit) : list (list string) :=
  omap (λ a, match a with
             | MLModelPropertiesClass _ _ _ _ d => Some d
             | _ => None end) (wu_aspects wu).

Definition wu_models (wu : MetadataWorkUnit) : list (list string) :=
  omap (λ a, match a with
             | MLModelGroupPropertiesClass _ _ _ m => Some m
             | _ => None end) (wu_aspects wu).

Definition wu_owners (wu : MetadataWorkUnit) : list (list OwnerClass) :=
  omap (λ a, match a with
             | OwnershipClass o => Some o
             | _ => None end) (wu_aspects wu).

(** ** The collaborators of the processor *)

(** Modelled from the spec: the job references of [sagemaker_processors/jobs.py]
    (identity URN and direction [TRAINING] or [DOWNSTREAM]). *)
Inductive JobDirection : Type := TRAINING | DOWNSTREAM.

Record ModelJob : Type := { job_urn : string; job_direction : JobDirection }.

Global Instance JobDirection_eq_dec : EqDecision JobDirection.
Proof. solve_decision. Defined.

Global Instance ModelJob_eq_dec : EqDecision ModelJob.
Proof. solve_decision. Defined.

Global Instance ModelJob_countable : Countable ModelJob.
Proof.
  refine (inj_countable'
    (λ j, (job_urn j, bool_decide (job_direction j = TRAINING)))
    (λ p, {| job_urn := p.1;
             job_direction := if p.2 then TRAINING else DOWNSTREAM |}) _).
  intros [u []]; reflexivity.
Defined.

(** Modelled from the spec: the Lineage Index of
    [sagemaker_processors/lineage.py], four mappings built before the scan.
    A key without an entry in the two endpoint mappings stands for the empty
    set. *)
Record LineageInfo : Type := {
  model_uri_endpoints : gmap string (gset string);
  model_image_endpoints : gmap string (gset string);
  group_model_uris : gmap string (gset string);
  group_model_images : gmap string (gset string);
}.

(** Modelled from the spec: the Scan Report of
    [sagemaker_processors/common.py], counters and the warnings recorded, in
    the order of the calls. *)
Record SagemakerSourceReport : Type := {
  endpoints_scanned : nat;
  models_scanned : nat;
  groups_scanned : nat;
  workunits_produced : nat;
  workunit_ids : list string;
  warnings : list (value * string);
}.

(** The boto3 client: the pages of a paginator and the three [describe]
    calls, each of which may raise. *)
Record Client : Type := {
  paginate : string → result (list value);
  describe_endpoint : value → result pydict;
  describe_model : value → result pydict;
  describe_model_package_group : value → result pydict;
}.

Record ModelProcessor : Type := {
  sagemaker_client : Client;
  env : string;
  report : SagemakerSourceReport;
  lineage : LineageInfo;
  (* map from model image file path to jobs referencing the model *)
  model_image_to_jobs : gmap string (gset ModelJob);
  (* map from model name to jobs referencing the model *)
  model_name_to_jobs : gmap string (gset ModelJob);
  (* map from model uri to model name *)
  model_uri_to_name : gmap string string;
  (* map from model image path to model name *)
  model_image_to_name : gmap string string;
}.

(** What Python leaves open: the iteration order of a set, the readings of
    the system clock and [str] on a value that is not a string; and the URN
    builders of [datahub.emitter.mce_builder]. *)
Record Runtime : Type := {
  set_iter : gset string → list string;
  set_iter_perm : ∀ X, set_iter X ≡ₚ elements X;
  clock : nat → Z;
  str_any : value → string;
  make_ml_model_urn : string → string → string → string;
  make_ml_model_deployment_urn : string → string → string → string;
  make_ml_model_group_urn : string → string → string → string;
}.

(** The state of one run: the processor, the number of clock readings so far
    and the work units yielded so far. *)
Record State : Type := {
  self : ModelProcessor;
  clock_reads : nat;
  yielded : list MetadataWorkUnit;
}.

Definition M (A : Type) : Type := State → result A * State.

Global Instance M_ret : MRet M := λ A a st, (Ok a, st).
Global Instance M_bind : MBind M := λ A B f m st,
  match m st with
  | (Ok a, st') => f a st'
  | (Err e, st') => (Err e, st')
  end.

Definition lift {A} (r : result A) : M A := λ st, (r, st).
Definition raise {A} (e : exn) : M A := lift (Err e).
Definition get_self : M ModelProcessor := λ st, (Ok (self st), st).
Definition modify_self (f : ModelProcessor → ModelProcessor) : M unit :=
  λ st, (Ok tt, {| self := f (self st); clock_reads := clock_reads st;
                   yielded := yielded st |}).

Definition set_report (r : SagemakerSourceReport) (p : ModelProcessor)
  : ModelProcessor :=
  {| sagemaker_client := sagemaker_client p; env := env p; report := r;
     lineage := lineage p; model_image_to_jobs := model_image_to_jobs p;
     model_name_to_jobs := model_name_to_jobs p;
     model_uri_to_name := model_uri_to_name p;
     model_image_to_name := model_image_to_name p |}.

Definition set_model_uri_to_name (m : gmap string string) (p : ModelProcessor)
  : ModelProcessor :=
  {| sagemaker_client := sagemaker_client p; env := env p; report := report p;
     lineage := lineage p; model_image_to_jobs := model_image_to_jobs p;
     model_name_to_jobs := model_name_to_jobs p;
     model_uri_to_name := m;
     model_image_to_name := model_image_to_name p |}.

Definition set_model_image_to_name (m : gmap string string) (p : ModelProcessor)
  : ModelProcessor :=
  {| sagemaker_client := sagemaker_client p; env := env p; report := report p;
     lineage := lineage p; model_image_to_jobs := model_image_to_jobs p;
     model_name_to_jobs := model_name_to_jobs p;
     model_uri_to_name := model_uri_to_name p;
     model_image_to_name := m |}.

(** [yield wu] *)
Definition yield (wu : MetadataWorkUnit) : M unit :=
  λ st, (Ok tt, {| self := self st; clock_reads := clock_reads st;
                   yielded := yielded st ++ [wu] |}).

(** ** The Scan Report *)
Module Report.
Definition report_warning (key : value) (reason : string) : M unit :=
  modify_self (λ p, set_report
    {| endpoints_scanned := endpoints_scanned (report p);
       models_scanned := models_scanned (report p);
       groups_scanned := groups_scanned (report p);
       workunits_produced := workunits_produced (report p);
       workunit_ids := workunit_ids (report p);
       warnings := warnings (report p) ++ [(key, reason)] |} p).

Definition report_endpoint_scanned : M unit :=
  modify_self (λ p, set_report
    {| endpoints_scanned := S (endpoints_scanned (report p));
       models_scanned := models_scanned (report p);
       groups_scanned := groups_scanned (report p);
       workunits_produced := workunits_produced (report p);
       workunit_ids := workunit_ids (report p);
       warnings := warnings (report p) |} p).

Definition report_model_scanned : M unit :=
  modify_self (λ p, set_report
    {| endpoints_scanned := endpoints_scanned (report p);
       models_scanned := S (models_scanned (report p));
       groups_scanned := groups_scanned (report p);
       workunits_produced := workunits_produced (report p);
       workunit_ids := workunit_ids (report p);
       warnings := warnings (report p) |} p).

Definition report_group_scanned : M unit :=
  modify_self (λ p, set_report
    {| endpoints_scanned := endpoints_scanned (report p);
       models_scanned := models_scanned (report p);
       groups_scanned := S (groups_scanned (report p));
       workunits_produced := workunits_produced (report p);
       workunit_ids := workunit_ids (report p);
       warnings := warnings (report p) |} p).

Definition report_workunit (wu : MetadataWorkUnit) : M unit :=
  modify_self (λ p, set_report
    {| endpoints_scanned := endpoints_scanned (report p);
       models_scanned := models_scanned (report p);
       groups_scanned := groups_scanned (report p);
       workunits_produced := S (workunits_produced (report p));
       workunit_ids := workunit_ids (report p) ++ [id wu];
       warnings := warnings (report p) |} p).
End Report.

(** ** The status table *)

Definition ENDPOINT_STATUS_MAP : gmap string DeploymentStatusClass :=
  list_to_map [
    ("OutOfService", OUT_OF_SERVICE);
    ("Creating", CREATING);
    ("Updating", UPDATING);
    ("SystemUpdating", UPDATING);
    ("RollingBack", ROLLING_BACK);
    ("InService", IN_SERVICE);
    ("Deleting", DELETING);
    ("Failed", FAILED);
    ("Unknown", UNKNOWN)
  ].

(** [table.get(v)] and [table.get(v, set())] for a value [v]. *)
Definition table_get {V} (m : gmap string V) (v : value) : result (option V) :=
  k ← hash_key v; mret (k ≫= (m !!.)).

(** [{d[x] for x in xs}], raising at the first [x] without an entry. *)
Fixpoint index_all (d : gmap string string) (xs : list string)
  : result (list string) :=
  match xs with
  | [] => Ok []
  | x :: xs' =>
      match d !! x with
      | Some n => ns ← index_all d xs'; mret (n :: ns)
      | None => Err (KeyError x)
      end
  end.

(** [acc += page[field]] for every page. *)
Fixpoint extend_pages (field : string) (pages acc : list value)
  : result (list value) :=
  match pages with
  | [] => Ok acc
  | page :: pages' =>
      v ← value_getitem page field;
      l ← as_list v;
      extend_pages field pages' (acc ++ l)
  end.

(** [sorted(l, key=lambda x: x[field])]: every key is computed first. *)
Definition sorted_by_field (field : string) (l : list value)
  : result (list value) :=
  keys ← mapM (λ x, value_getitem x field) l;
  skeys ← mapM as_str keys;
  mret ((sorted_by fst (zip skeys l)).*2).

(** [{job.job_urn for job in jobs if job.job_direction == dir}] *)
Definition job_urns (dir : JobDirection) (jobs : gset ModelJob) : gset string :=
  set_map job_urn (filter (λ j, job_direction j = dir) jobs).

(** ** The processor *)
Section processor.
Context (rt : Runtime).

(** [str(v)], also what an f-string puts for [{v}]. *)
Definition py_str (v : value) : string :=
  match v with
  | VStr s => s
  | _ => str_any rt v
  end.

(** [datetime.now()] *)
Definition datetime_now : M value :=
  λ st, (Ok (VDatetime (clock rt (clock_reads st))),
         {| self := self st; clock_reads := S (clock_reads st);
            yielded := yielded st |}).

(** [{key: str(value) for key, value in details.items()
      if key not in redundant_fields}] *)
Definition custom_properties (redundant_fields : list string)
    (details : pydict) : list (string * string) :=
  (λ kv, (kv.1, py_str kv.2)) <$>
    filter (λ kv, kv.1 ∉ redundant_fields) details.

Definition get_all_models : M (list value) :=
  p ← get_self;
  pages ← lift (paginate (sagemaker_client p) "list_models");
  lift (extend_pages "Models" pages []).

Definition get_model_details (model_name : value) : M pydict :=
  p ← get_self;
  lift (describe_model (sagemaker_client p) model_name).

Definition get_all_groups : M (list value) :=
  p ← get_self;
  pages ← lift (paginate (sagemaker_client p) "list_model_package_groups");
  lift (extend_pages "ModelPackageGroupSummaryList" pages []).

Definition get_group_details (group_name : value) : M pydict :=
  p ← get_self;
  lift (describe_model_package_group (sagemaker_client p) group_name).

Definition get_all_endpoints : M (list value) :=
  p ← get_self;
  pages ← lift (paginate (sagemaker_client p) "list_endpoints");
  lift (extend_pages "Endpoints" pages []).

Definition get_endpoint_details (endpoint_name : value) : M pydict :=
  p ← get_self;
  lift (describe_endpoint (sagemaker_client p) endpoint_name).

Definition get_endpoint_status
    (endpoint_name endpoint_arn sagemaker_status : value)
  : M DeploymentStatusClass :=
  endpoint_status ← lift (table_get ENDPOINT_STATUS_MAP sagemaker_status);
  match endpoint_status with
  | None =>
      Report.report_warning endpoint_arn
        ("Unknown status for " +:+ py_str endpoint_name +:+ " (" +:+
         py_str endpoint_arn +:+ "): " +:+ py_str sagemaker_status);;
      mret UNKNOWN
  | Some endpoint_status => mret endpoint_status
  end.

Definition get_endpoint_wu (endpoint_details : pydict) : M MetadataWorkUnit :=
  p ← get_self;
  (* params to remove since we extract them *)
  let redundant_fields := ["EndpointName"; "CreationTime"] in
  name ← lift (Dict.getitem endpoint_details "EndpointName");
  let urn := make_ml_model_deployment_urn rt "sagemaker" (py_str name) (env p) in
  now ← datetime_now;
  createdAt ← lift (timestamp_ms
                      (Dict.get_default endpoint_details "CreationTime" now));
  arg1 ← lift (Dict.getitem endpoint_details "EndpointArn");
  arg2 ← lift (Dict.getitem endpoint_details "EndpointName");
  status ← get_endpoint_status arg1 arg2
             (Dict.get_default endpoint_details "EndpointStatus"
                               (VStr "Unknown"));
  let endpoint_snapshot :=
    MLModelDeploymentSnapshot urn
      [MLModelDeploymentPropertiesClass createdAt status
         (custom_properties redundant_fields endpoint_details)] in
  (* make the MCE and workunit *)
  let mce := {| proposedSnapshot := endpoint_snapshot |} in
  wu_id ← lift (Dict.getitem endpoint_details "EndpointName");
  mret {| id := py_str wu_id; mce := mce |}.

(** The loop over [model_details.get("Containers", [])] collecting the
    [ModelDataUrl] of every container that has one. *)
Fixpoint container_data_urls (containers model_data_urls : list value)
  : result (list value) :=
  match containers with
  | [] => Ok model_data_urls
  | model_container :: containers' =>
      model_data_url ← value_get model_container "ModelDataUrl";
      match model_data_url with
      | VNone => container_data_urls containers' model_data_urls
      | _ => container_data_urls containers'
               (model_data_urls ++ [model_data_url])
      end
  end.

(** The loop over [model_data_urls] extending the two sets of job URNs. *)
Fixpoint data_url_jobs (jobs : gmap string (gset ModelJob))
    (model_data_urls : list value)
    (model_training_jobs model_downstream_jobs : gset string)
  : result (gset string * gset string) :=
  match model_data_urls with
  | [] => Ok (model_training_jobs, model_downstream_jobs)
  | model_data_url :: urls' =>
      matched ← table_get jobs model_data_url;
      let data_url_matched_jobs := default ∅ matched in
      data_url_jobs jobs urls'
        (* extend set of training jobs *)
        (model_training_jobs ∪ job_urns TRAINING data_url_matched_jobs)
        (* extend set of downstream jobs *)
        (model_downstream_jobs ∪ job_urns DOWNSTREAM data_url_matched_jobs)
  end.

(** [get_model_wu], lines 195-198: the endpoint ARNs of the model image,
    and the side table written on the way. *)
Definition endpoints_by_image (model_details : pydict)
    (model_image : value) (model_endpoints : gset string)
  : M (gset string) :=
  (* get endpoints and groups by model image *)
  match model_image with
  | VNone => mret model_endpoints
  | _ =>
      p ← get_self;
      image ← lift (as_str model_image);
      let model_endpoints := model_endpoints ∪
        default ∅ (model_image_endpoints (lineage p) !! image) in
      name ← lift (Dict.getitem model_details "ModelName" ≫= as_str);
      modify_self (λ p, set_model_image_to_name
                          (<[image := name]> (model_image_to_name p)) p);;
      mret model_endpoints
  end.

(** [get_model_wu], lines 200-203: the same for the model uri. *)
Definition endpoints_by_uri (model_details : pydict)
    (model_uri : value) (model_endpoints : gset string)
  : M (gset string) :=
  (* get endpoints and groups by model uri *)
  match model_uri with
  | VNone => mret model_endpoints
  | _ =>
      p ← get_self;
      uri ← lift (as_str model_uri);
      let model_endpoints := model_endpoints ∪
        default ∅ (model_uri_endpoints (lineage p) !! uri) in
      name ← lift (Dict.getitem model_details "ModelName" ≫= as_str);
      modify_self (λ p, set_model_uri_to_name
                          (<[uri := name]> (model_uri_to_name p)) p);;
      mret model_endpoints
  end.

(** [get_model_wu], lines 214-223: the model data URLs of the containers,
    then that of the primary container. *)
Definition model_data_urls (model_details : pydict) : result (list value) :=
  (* extract model data URLs for matching with jobs *)
  let model_data_urls : list value := [] in
  containers ← as_list
    (Dict.get_default model_details "Containers" (VList []));
  model_data_urls ← container_data_urls containers model_data_urls;
  model_data_url ← value_get
    (Dict.get_default model_details "PrimaryContainer" (VDict []))
    "ModelDataUrl";
  match model_data_url with
  | VNone => mret model_data_urls
  | _ => mret (model_data_urls ++ [model_data_url])
  end.

(** [get_model_wu], lines 210-211 and 225-264: the URNs of the training
    jobs and of the downstream jobs that reference the model. *)
Definition model_jobs (p : ModelProcessor) (model_details : pydict)
    (model_data_urls : list value) : result (gset string * gset string) :=
  let model_training_jobs : gset string := ∅ in
  let model_downstream_jobs : gset string := ∅ in
  '(model_training_jobs, model_downstream_jobs) ←
    data_url_jobs (model_image_to_jobs p) model_data_urls
                  model_training_jobs model_downstream_jobs;
  (* get jobs referencing the model by name *)
  name ← Dict.getitem model_details "ModelName";
  matched ← table_get (model_name_to_jobs p) name;
  let name_matched_jobs := default ∅ matched in
  mret
    ((* extend set of training jobs *)
     model_training_jobs ∪ job_urns TRAINING name_matched_jobs,
     (* extend set of downstream jobs *)
     model_downstream_jobs ∪ job_urns DOWNSTREAM name_matched_jobs).

Definition get_model_wu (model_details : pydict)
    (endpoint_arn_to_name : gmap string value) : M MetadataWorkUnit :=
  (* params to remove since we extract them *)
  let redundant_fields := ["ModelName"; "CreationTime"] in
  model_image ← lift (value_get
    (Dict.get_default model_details "PrimaryContainer" (VDict [])) "Image");
  model_uri ← lift (value_get
    (Dict.get_default model_details "PrimaryContainer" (VDict []))
    "ModelDataUrl");
  let model_endpoints : gset string := ∅ in
  model_endpoints ←
    endpoints_by_image model_details model_image model_endpoints;
  model_endpoints ←
    endpoints_by_uri model_details model_uri model_endpoints;
  (* sort endpoints and groups for consistency *)
  let model_endpoints_sorted :=
    py_sorted (filter (λ x, x ∈ dom endpoint_arn_to_name)
                      (set_iter rt model_endpoints)) in
  model_data_urls ← lift (model_data_urls model_details);
  p ← get_self;
  '(model_training_jobs, model_downstream_jobs) ←
    lift (model_jobs p model_details model_data_urls);
  name ← lift (Dict.getitem model_details "ModelName");
  let urn := make_ml_model_urn rt "sagemaker" (py_str name) (env p) in
  now ← datetime_now;
  date ← lift (timestamp_ms
                 (Dict.get_default model_details "CreationTime" now));
  let model_snapshot :=
    MLModelSnapshot urn
      [MLModelPropertiesClass date
         ((λ endpoint_name,
             make_ml_model_deployment_urn rt "sagemaker" endpoint_name (env p))
            <$> model_endpoints_sorted)
         (custom_properties redundant_fields model_details)
         (py_sorted (set_iter rt model_training_jobs))
         (py_sorted (set_iter rt model_downstream_jobs))] in
  (* make the MCE and workunit *)
  let mce := {| proposedSnapshot := model_snapshot |} in
  wu_id ← lift (Dict.getitem model_details "ModelName");
  mret {| id := py_str wu_id; mce := mce |}.

(** [{d[x] for x in xs if x in guard}] *)
Definition index_where (d guard : gmap string string) (xs : gset string)
  : result (gset string) :=
  names ← index_all d (filter (λ x, x ∈ dom guard) (set_iter rt xs));
  mret (list_to_set names).

(** [get_group_wu], lines 311-327: the names of the models of the group. *)
Definition group_model_names (p : ModelProcessor) (group_arn : value)
  : result (gset string) :=
  let group_model_names : gset string := ∅ in
  in_uris ← table_get (group_model_uris (lineage p)) group_arn;
  group_model_names ←
    match in_uris with
    | Some model_uris =>
        names ← index_where (model_uri_to_name p) (model_uri_to_name p)
                            model_uris;
        mret (group_model_names ∪ names)
    | None => mret group_model_names
    end;
  in_images ← table_get (group_model_images (lineage p)) group_arn;
  match in_images with
  | Some model_images =>
      names ← index_where (model_image_to_name p) (model_uri_to_name p)
                          model_images;
      mret (group_model_names ∪ names)
  | None => mret group_model_names
  end.

(** [get_group_wu], lines 329-337: the owners of the group. *)
Definition group_owners (group_details : pydict) : result (list OwnerClass) :=
  let owners : list OwnerClass := [] in
  created_by ← value_get
    (Dict.get_default group_details "CreatedBy" (VDict []))
    "UserProfileName";
  match created_by with
  | VNone => mret owners
  | _ =>
      cb ← Dict.getitem group_details "CreatedBy";
      o ← value_getitem cb "UserProfileName";
      mret (owners ++ [{| owner := o; type := DATAOWNER |}])
  end.

Definition get_group_wu (group_details : pydict) : M MetadataWorkUnit :=
  (* params to remove since we extract them *)
  let redundant_fields := ["ModelPackageGroupName"; "CreationTime"] in
  p ← get_self;
  group_arn ← lift (Dict.getitem group_details "ModelPackageGroupArn");
  group_model_names ← lift (group_model_names p group_arn);
  owners ← lift (group_owners group_details);
  name ← lift (Dict.getitem group_details "ModelPackageGroupName");
  let urn := make_ml_model_group_urn rt "sagemaker" (py_str name) (env p) in
  now ← datetime_now;
  createdAt ← lift (timestamp_ms
                      (Dict.get_default group_details "CreationTime" now));
  let group_snapshot :=
    MLModelGroupSnapshot urn
      [MLModelGroupPropertiesClass createdAt
         (Dict.get group_details "ModelPackageGroupDescription")
         (custom_properties redundant_fields group_details)
         (py_sorted
            ((λ model_name,
                make_ml_model_urn rt "sagemaker" model_name (env p))
               <$> set_iter rt group_model_names));
       OwnershipClass owners] in
  (* make the MCE and workunit *)
  let mce := {| proposedSnapshot := group_snapshot |} in
  wu_id ← lift (Dict.getitem group_details "ModelPackageGroupName");
  mret {| id := py_str wu_id; mce := mce |}.

(** The bodies of the three loops of [get_workunits], and the loops. *)
Definition endpoint_step (endpoint : value)
    (endpoint_arn_to_name : gmap string value) : M (gmap string value) :=
  name ← lift (value_getitem endpoint "EndpointName");
  endpoint_details ← get_endpoint_details name;
  dname ← lift (Dict.getitem endpoint_details "EndpointName");
  arn ← lift (value_getitem endpoint "EndpointArn" ≫= as_str);
  let endpoint_arn_to_name := <[arn := dname]> endpoint_arn_to_name in
  Report.report_endpoint_scanned;;
  wu ← get_endpoint_wu endpoint_details;
  Report.report_workunit wu;;
  yield wu;;
  mret endpoint_arn_to_name.

Fixpoint endpoint_loop (endpoints : list value)
    (endpoint_arn_to_name : gmap string value) : M (gmap string value) :=
  match endpoints with
  | [] => mret endpoint_arn_to_name
  | endpoint :: endpoints' =>
      endpoint_arn_to_name ← endpoint_step endpoint endpoint_arn_to_name;
      endpoint_loop endpoints' endpoint_arn_to_name
  end.

Definition model_step (model : value)
    (endpoint_arn_to_name : gmap string value) : M unit :=
  name ← lift (value_getitem model "ModelName");
  model_details ← get_model_details name;
  Report.report_model_scanned;;
  wu ← get_model_wu model_details endpoint_arn_to_name;
  Report.report_workunit wu;;
  yield wu.

Fixpoint model_loop (models : list value)
    (endpoint_arn_to_name : gmap string value) : M unit :=
  match models with
  | [] => mret tt
  | model :: models' =>
      model_step model endpoint_arn_to_name;;
      model_loop models' endpoint_arn_to_name
  end.

Definition group_step (group : value) : M unit :=
  name ← lift (value_getitem group "ModelPackageGroupName");
  group_details ← get_group_details name;
  Report.report_group_scanned;;
  wu ← get_group_wu group_details;
  Report.report_workunit wu;;
  yield wu.

Fixpoint group_loop (groups : list value) : M unit :=
  match groups with
  | [] => mret tt
  | group :: groups' => group_step group;; group_loop groups'
  end.

Definition get_workunits : M unit :=
  endpoints ← get_all_endpoints;
  (* sort endpoints for consistency *)
  endpoints ← lift (sorted_by_field "EndpointArn" endpoints);
  let endpoint_arn_to_name : gmap string value := ∅ in
  (* ingest endpoints first since we need to know the endpoint ARN -> name
     mapping *)
  endpoint_arn_to_name ← endpoint_loop endpoints endpoint_arn_to_name;
  models ← get_all_models;
  (* sort models for consistency *)
  models ← lift (sorted_by_field "ModelArn" models);
  model_loop models endpoint_arn_to_name;;
  groups ← get_all_groups;
  (* sort groups for consistency *)
  groups ← lift (sorted_by_field "ModelPackageGroupName" groups);
  group_loop groups.
End processor.

(** ** A concrete runtime

    The builders format a URN as [mce_builder] does; sets are iterated in the
    order of [elements], or in the reverse order. *)
Definition urn_of (kind platform name env : string) : string :=
  "urn:li:" +:+ kind +:+ ":(urn:li:dataPlatform:" +:+ platform +:+ "," +:+
  name +:+ "," +:+ env +:+ ")".

Lemma reverse_elements_perm (X : gset string) : reverse (elements X) ≡ₚ elements X.
Proof. apply reverse_Permutation. Defined.

Definition runtime_with (iter : gset string → list string)
    (Hiter : ∀ X, iter X ≡ₚ elements X) (clk : nat → Z) : Runtime :=
  {| set_iter := iter;
     set_iter_perm := Hiter;
     clock := clk;
     str_any := λ _, "<object>";
     make_ml_model_urn := urn_of "mlModel";
     make_ml_model_deployment_urn := urn_of "mlModelDeployment";
     make_ml_model_group_urn := urn_of "mlModelGroup" |}.

Definition rt0 : Runtime :=
  runtime_with elements (λ X, reflexivity (elements X)) (λ _, 0%Z).

Definition rt1 : Runtime :=
  runtime_with (λ X, reverse (elements X)) reverse_elements_perm
               (λ n, Z.of_nat n).

(** ** A small account: two endpoints, two models, one group *)
Module Fixture.
Definition arn (kind name : string) : string :=
  "arn:" +:+ kind +:+ "/" +:+ name.

Definition endpoint_a : value :=
  VDict [("EndpointName", VStr "ep-a");
         ("EndpointArn", VStr (arn "endpoint" "ep-a"))].
Definition endpoint_b : value :=
  VDict [("EndpointName", VStr "ep-b");
         ("EndpointArn", VStr (arn "endpoint" "ep-b"))].

Definition endpoint_a_details : pydict :=
  [("EndpointName", VStr "ep-a");
   ("EndpointArn", VStr (arn "endpoint" "ep-a"));
   ("EndpointStatus", VStr "InService");
   ("CreationTime", VDatetime 1000)].
Definition endpoint_b_details : pydict :=
  [("EndpointName", VStr "ep-b");
   ("EndpointArn", VStr (arn "endpoint" "ep-b"));
   ("EndpointStatus", VStr "Paused");
   ("CreationTime", VDatetime 2000)].
(** An endpoint detail without [EndpointStatus]. *)
Definition endpoint_c_details : pydict :=
  [("EndpointName", VStr "ep-c");
   ("EndpointArn", VStr (arn "endpoint" "ep-c"));
   ("CreationTime", VDatetime 2500)].

Definition model_1 : value :=
  VDict [("ModelName", VStr "M1"); ("ModelArn", VStr (arn "model" "m1"))].
Definition model_2 : value :=
  VDict [("ModelName", VStr "M2"); ("ModelArn", VStr (arn "model" "m2"))].

Definition model_1_details : pydict :=
  [("ModelName", VStr "M1");
   ("PrimaryContainer",
    VDict [("Image", VStr "i1"); ("ModelDataUrl", VStr "u1")]);
   ("CreationTime", VDatetime 3000)].
Definition model_2_details : pydict :=
  [("ModelName", VStr "M2");
   ("PrimaryContainer",
    VDict [("Image", VStr "i2"); ("ModelDataUrl", VStr "u2")]);
   ("Containers", VList [VDict [("ModelDataUrl", VStr "u3")]]);
   ("CreationTime", VDatetime 4000)].

Definition group_1 : value := VDict [("ModelPackageGroupName", VStr "G1")].
Definition group_1_details : pydict :=
  [("ModelPackageGroupName", VStr "G1");
   ("ModelPackageGroupArn", VStr (arn "group" "g1"));
   ("CreatedBy", VDict [("UserProfileName", VStr "alice")]);
   ("CreationTime", VDatetime 5000)].
(** A group detail without [CreatedBy]. *)
Definition group_2_details : pydict :=
  [("ModelPackageGroupName", VStr "G2");
   ("ModelPackageGroupArn", VStr (arn "group" "g2"));
   ("CreationTime", VDatetime 6000)].

Fixpoint find_name (s : string) (table : list (string * pydict))
  : result pydict :=
  match table with
  | [] => Err (ClientError "ValidationException")
  | (k, d) :: table' => if String.eqb s k then Ok d else find_name s table'
  end.

Definition describe (table : list (string * pydict)) (name : value)
  : result pydict :=
  match name with
  | VStr s => find_name s table
  | _ => Err (ClientError "ParamValidationError")
  end.

(** The client; [flip] tells in which order it lists the entities. *)
Definition client (flip : bool) : Client :=
  let order {A} (l : list A) := if flip then reverse l else l in
  {| paginate := λ op,
       if String.eqb op "list_endpoints" then
         Ok [VDict [("Endpoints", VList (order [endpoint_a; endpoint_b]))]]
       else if String.eqb op "list_models" then
         Ok (order [VDict [("Models", VList [model_1])];
                    VDict [("Models", VList [model_2])]])
       else if String.eqb op "list_model_package_groups" then
         Ok [VDict [("ModelPackageGroupSummaryList", VList [group_1])]]
       else Err (ClientError "OperationNotPageableError");
     describe_endpoint :=
       describe [("ep-a", endpoint_a_details); ("ep-b", endpoint_b_details)];
     describe_model :=
       describe [("M1", model_1_details); ("M2", model_2_details)];
     describe_model_package_group := describe [("G1", group_1_details)] |}.

Definition job (urn : string) (dir : JobDirection) : ModelJob :=
  {| job_urn := urn; job_direction := dir |}.

Definition lineage_index : LineageInfo :=
  {| model_image_endpoints :=
       {[ "i1" := {[ arn "endpoint" "ep-a"; arn "endpoint" "gone" ]} ]};
     model_uri_endpoints := {[ "u1" := {[ arn "endpoint" "ep-b" ]} ]};
     group_model_uris :=
       {[ arn "group" "g1" := {[ "u1" ]} ]};
     group_model_images :=
       {[ arn "group" "g1" := {[ "i2" ]};
          arn "group" "g2" := {[ "u1" ]} ]} |}.

Definition empty_report : SagemakerSourceReport :=
  {| endpoints_scanned := 0; models_scanned := 0; groups_scanned := 0;
     workunits_produced := 0; workunit_ids := []; warnings := [] |}.

Definition processor (flip : bool) : ModelProcessor :=
  {| sagemaker_client := client flip;
     env := "PROD";
     report := empty_report;
     lineage := lineage_index;
     model_image_to_jobs :=
       {[ "i1" := {[ job "A" TRAINING; job "B" DOWNSTREAM ]};
          "u2" := {[ job "A" TRAINING; job "B" DOWNSTREAM ]} ]};
     model_name_to_jobs := ∅;
     model_uri_to_name := ∅;
     model_image_to_name := ∅ |}.

Definition start (flip : bool) : State :=
  {| self := processor flip; clock_reads := 0; yielded := [] |}.

(** The record a call returns, if it returns one. *)
Definition emitted (r : result MetadataWorkUnit * State) : MetadataWorkUnit :=
  match r.1 with
  | Ok wu => wu
  | Err _ =>
      {| id := ""; mce := {| proposedSnapshot := MLModelSnapshot "" [] |} |}
  end.

(** The state in which the groups are processed. *)
Definition after_models : State := (model_loop rt0 [model_1; model_2] ∅ (start false)).2.
End Fixture.

(** ** Two models that share an image

    Model [M3] runs the image of model [M1] and has no model data. *)
Module Sharing.
Definition model_3 : value :=
  VDict [("ModelName", VStr "M3");
         ("ModelArn", VStr (Fixture.arn "model" "m3"))].

Definition model_3_details : pydict :=
  [("ModelName", VStr "M3");
   ("PrimaryContainer", VDict [("Image", VStr "i1")]);
   ("CreationTime", VDatetime 7000)].

Definition client : Client :=
  {| paginate := λ op,
       if String.eqb op "list_models" then
         Ok [VDict [("Models", VList [model_3; Fixture.model_1])]]
       else paginate (Fixture.client false) op;
     describe_endpoint := describe_endpoint (Fixture.client false);
     describe_model :=
       Fixture.describe [("M1", Fixture.model_1_details);
                         ("M3", model_3_details)];
     describe_model_package_group :=
       describe_model_package_group (Fixture.client false) |}.

Definition start : State :=
  {| self :=
       {| sagemaker_client := client;
          env := "PROD";
          report := Fixture.empty_report;
          lineage := Fixture.lineage_index;
          model_image_to_jobs := ∅;
          model_name_to_jobs := ∅;
          model_uri_to_name := ∅;
          model_image_to_name := ∅ |};
     clock_reads := 0;
     yielded := [] |}.
End Sharing.

(** ** Accounts made to measure

    A client that returns the given pages for every listing and describes
    the entities of the given table. *)
Module Faulty.
Definition client (pages : list value) (table : list (string * pydict))
  : Client :=
  {| paginate := λ _, Ok pages;
     describe_endpoint := Fixture.describe table;
     describe_model := Fixture.describe table;
     describe_model_package_group := Fixture.describe table |}.

Definition start (pages : list value) (table : list (string * pydict))
  : State :=
  {| self :=
       {| sagemaker_client := client pages table;
          env := "PROD";
          report := Fixture.empty_report;
          lineage := Fixture.lineage_index;
          model_image_to_jobs := ∅;
          model_name_to_jobs := ∅;
          model_uri_to_name := ∅;
          model_image_to_name := ∅ |};
     clock_reads := 0;
     yielded := [] |}.
End Faulty.

(** ** Two endpoints under one ARN

    The client lists two endpoints with the same [EndpointArn], in one order
    or in the other, and describes each with its creation time. *)
Module Tied.
Definition endpoint (name : string) : value :=
  VDict [("EndpointName", VStr name);
         ("EndpointArn", VStr (Fixture.arn "endpoint" "same"))].

Definition details (name : string) (ms : Z) : pydict :=
  [("EndpointName", VStr name);
   ("EndpointArn", VStr (Fixture.arn "endpoint" "same"));
   ("EndpointStatus", VStr "InService");
   ("CreationTime", VDatetime ms)].

Definition page (endpoints : list value) : value :=
  VDict [("Endpoints", VList endpoints);
         ("Models", VList []);
         ("ModelPackageGroupSummaryList", VList [])].

Definition start (flip : bool) : State :=
  Faulty.start
    [page (if flip then [endpoint "ep-b"; endpoint "ep-a"]
           else [endpoint "ep-a"; endpoint "ep-b"])]
    [("ep-a", details "ep-a" 1000); ("ep-b", details "ep-b" 2000)].
End Tied.

(** * Properties *)

(** ** Running the monad *)

Lemma bind_step {A B} (m : M A) (f : A → M B) st :
  (m ≫= f) st = match m st with
                | (Ok a, st') => f a st'
                | (Err e, st') => (Err e, st')
                end.
Proof. reflexivity. Qed.

Lemma bind_inv {A B} (m : M A) (f : A → M B) st b st' :
  (m ≫= f) st = (Ok b, st') →
  ∃ a st1, m st = (Ok a, st1) ∧ f a st1 = (Ok b, st').
Proof.
  rewrite bind_step. destruct (m st) as [[a|e] st1]; [eauto|discriminate].
Qed.

Lemma lift_inv {A} (r : result A) st a st' :
  lift r st = (Ok a, st') → r = Ok a ∧ st' = st.
Proof. unfold lift. intros [= -> ->]. done. Qed.

Lemma ret_inv {A} (a b : A) (st st' : State) :
  mret (M := M) a st = (Ok b, st') → b = a ∧ st' = st.
Proof. intros [= -> ->]. done. Qed.

Lemma result_bind_inv {A B} (r : result A) (f : A → result B) b :
  r ≫= f = Ok b → ∃ a, r = Ok a ∧ f a = Ok b.
Proof. destruct r; [eauto|discriminate]. Qed.

Lemma getitem_inv d k v : Dict.getitem d k = Ok v → Dict.lookup d k = Some v.
Proof. unfold Dict.getitem. destruct (Dict.lookup d k); naive_solver. Qed.

Lemma getitem_lookup d k v : Dict.lookup d k = Some v → Dict.getitem d k = Ok v.
Proof. unfold Dict.getitem. by intros ->. Qed.

(** Inversion of a successful run, one bind at a time. *)
Ltac inv_run H :=
  repeat match type of H with
  | (_ ≫= _) _ = (Ok _, _) =>
      let a := fresh "a" in let st := fresh "st" in let H1 := fresh "H" in
      apply bind_inv in H as (a & st & H1 & H);
      try (apply lift_inv in H1 as [H1 ->]);
      try (apply ret_inv in H1 as [-> ->])
  end.

(** The state after one reading of the clock. *)
Definition tick (st : State) : State :=
  {| self := self st; clock_reads := S (clock_reads st); yielded := yielded st |}.

(** ** Endpoint status *)

Lemma get_endpoint_status_mapped rt n a s c st :
  ENDPOINT_STATUS_MAP !! s = Some c →
  get_endpoint_status rt n a (VStr s) st = (Ok c, st).
Proof.
  intros H. unfold get_endpoint_status. rewrite bind_step. simpl.
  unfold mbind, result_bind, mret, result_ret; simpl. rewrite H. reflexivity.
Qed.

Lemma get_endpoint_status_unmapped rt n a s st :
  ENDPOINT_STATUS_MAP !! s = None →
  ∃ st', get_endpoint_status rt n a (VStr s) st = (Ok UNKNOWN, st') ∧
    warnings (report (self st')) =
      warnings (report (self st)) ++
        [(a, "Unknown status for " +:+ py_str rt n +:+ " (" +:+
             py_str rt a +:+ "): " +:+ s)] ∧
    clock_reads st' = clock_reads st ∧ yielded st' = yielded st.
Proof.
  intros H. unfold get_endpoint_status. rewrite bind_step. simpl.
  unfold mbind at 1, result_bind, mret, result_ret; simpl. rewrite H.
  eexists. split; [reflexivity|]. simpl. done.
Qed.

Lemma get_endpoint_wu_inv rt d st wu st' :
  get_endpoint_wu rt d st = (Ok wu, st') →
  ∃ n a status,
    Dict.lookup d "EndpointName" = Some n ∧
    Dict.lookup d "EndpointArn" = Some a ∧
    get_endpoint_status rt a n
      (Dict.get_default d "EndpointStatus" (VStr "Unknown")) (tick st)
      = (Ok status, st') ∧
    wu_status wu = [status].
Proof.
  intros H. unfold get_endpoint_wu in H. inv_run H.
  apply ret_inv in H as [-> ->].
  apply getitem_inv in H1, H4, H5. simplify_eq.
  eexists _, _, _. repeat split; eauto.
Qed.

Lemma get_endpoint_wu_run rt d st n a ms :
  Dict.lookup d "EndpointName" = Some n →
  Dict.lookup d "EndpointArn" = Some a →
  timestamp_ms (Dict.get_default d "CreationTime"
                  (VDatetime (clock rt (clock_reads st)))) = Ok ms →
  get_endpoint_wu rt d st =
    match get_endpoint_status rt a n
            (Dict.get_default d "EndpointStatus" (VStr "Unknown")) (tick st)
    with
    | (Ok status, st') =>
        (Ok {| id := py_str rt n;
               mce := {| proposedSnapshot :=
                 MLModelDeploymentSnapshot
                   (make_ml_model_deployment_urn rt "sagemaker" (py_str rt n)
                      (env (self st)))
                   [MLModelDeploymentPropertiesClass ms status
                      (custom_properties rt ["EndpointName"; "CreationTime"] d)]
               |} |}, st')
    | (Err e, st') => (Err e, st')
    end.
Proof.
  intros Hn Ha Hms.
  unfold get_endpoint_wu, mbind, M_bind, lift, get_self, datetime_now.
  rewrite !(getitem_lookup _ _ _ Hn), (getitem_lookup _ _ _ Ha), Hms.
  fold (tick st).
  destruct (get_endpoint_status _ _ _ _ _) as [[status|e] st']; reflexivity.
Qed.

(** C8. The status table is the fixed nine-entry mapping, and
    [get_endpoint_status] classifies each of the nine raw statuses
    accordingly without touching the report. *)
Theorem endpoint_status_map_nine_entries :
  size ENDPOINT_STATUS_MAP = 9 ∧
  Forall (λ sc : string * DeploymentStatusClass,
            ENDPOINT_STATUS_MAP !! sc.1 = Some sc.2 ∧
            ∀ rt n a st,
              get_endpoint_status rt n a (VStr sc.1) st = (Ok sc.2, st))
    [("OutOfService", OUT_OF_SERVICE); ("Creating", CREATING);
     ("Updating", UPDATING); ("SystemUpdating", UPDATING);
     ("RollingBack", ROLLING_BACK); ("InService", IN_SERVICE);
     ("Deleting", DELETING); ("Failed", FAILED); ("Unknown", UNKNOWN)].
Proof.
  split; [vm_compute; reflexivity|].
  repeat constructor; simpl;
    try (intros; apply get_endpoint_status_mapped); vm_compute; reflexivity.
Qed.

(** C4. An endpoint detail whose status string is not a key of the table
    yields a record of status [UNKNOWN]; exactly one warning is appended to
    the report, naming the ARN and the name of the endpoint, and the call
    returns normally. *)
Theorem unmapped_status_falls_back_with_one_warning rt d st n a s ms :
  Dict.lookup d "EndpointName" = Some n →
  Dict.lookup d "EndpointArn" = Some a →
  Dict.lookup d "EndpointStatus" = Some (VStr s) →
  ENDPOINT_STATUS_MAP !! s = None →
  timestamp_ms (Dict.get_default d "CreationTime"
                  (VDatetime (clock rt (clock_reads st)))) = Ok ms →
  ∃ wu st',
    get_endpoint_wu rt d st = (Ok wu, st') ∧
    wu_status wu = [UNKNOWN] ∧
    warnings (report (self st')) =
      warnings (report (self st)) ++
        [(n, "Unknown status for " +:+ py_str rt a +:+ " (" +:+
             py_str rt n +:+ "): " +:+ s)].
Proof.
  intros Hn Ha Hs Hmap Hms.
  rewrite (get_endpoint_wu_run rt d st n a ms Hn Ha Hms).
  unfold Dict.get_default. rewrite Hs.
  destruct (get_endpoint_status_unmapped rt a n s (tick st) Hmap)
    as (st' & -> & Hw & _).
  eexists _, _. split; [reflexivity|]. split; [reflexivity|]. exact Hw.
Qed.

(** C10. An endpoint detail without the [EndpointStatus] field yields a
    record of status [UNKNOWN] and leaves the warnings of the report as they
    were. *)
Theorem missing_status_is_unknown_without_warning rt d st wu st' :
  Dict.lookup d "EndpointStatus" = None →
  get_endpoint_wu rt d st = (Ok wu, st') →
  wu_status wu = [UNKNOWN] ∧
  warnings (report (self st')) = warnings (report (self st)).
Proof.
  intros Hs H. apply get_endpoint_wu_inv in H as (n & a & status & _ & _ & H & ->).
  unfold Dict.get_default in H. rewrite Hs in H.
  rewrite (get_endpoint_status_mapped rt a n "Unknown" UNKNOWN) in H
    by (vm_compute; reflexivity).
  by simplify_eq.
Qed.

Lemma bind_lift {A B} (r : result A) (f : A → M B) st :
  (lift r ≫= f) st = match r with Ok a => f a st | Err e => (Err e, st) end.
Proof. by destruct r. Qed.

Lemma bind_get_self {B} (f : ModelProcessor → M B) st :
  (get_self ≫= f) st = f (self st) st.
Proof. reflexivity. Qed.

Lemma table_get_str {V} (m : gmap string V) s : table_get m (VStr s) = Ok (m !! s).
Proof. reflexivity. Qed.

(** ** Group records *)

Lemma index_all_guarded (d : gmap string string) xs :
  Forall (λ x, x ∈ dom d) xs →
  ∃ ns, index_all d xs = Ok ns ∧ Forall2 (λ x n, d !! x = Some n) xs ns.
Proof.
  induction 1 as [|x xs Hx _ (ns & IH & IH2)]; simpl.
  - eexists; split; [done|constructor].
  - apply elem_of_dom in Hx as [n Hn]. rewrite Hn, IH. simpl.
    eexists; split; [done|]. by constructor.
Qed.

Lemma index_all_ok_inv (d : gmap string string) xs ns :
  index_all d xs = Ok ns → Forall2 (λ x n, d !! x = Some n) xs ns.
Proof.
  revert ns. induction xs as [|x xs IH]; simpl; intros ns H.
  - simplify_eq. constructor.
  - destruct (d !! x) as [n|] eqn:Hn; [|done].
    apply result_bind_inv in H as (ns' & H1 & H2). simplify_eq.
    unfold mret, result_ret in H2. simplify_eq. constructor; auto.
Qed.

Lemma index_all_missing (d : gmap string string) xs x :
  x ∈ xs → d !! x = None →
  ∃ k, k ∈ xs ∧ d !! k = None ∧ index_all d xs = Err (KeyError k).
Proof.
  induction xs as [|y xs IH]; [by intros ?%elem_of_nil|].
  intros Hin Hx. simpl. destruct (d !! y) as [n|] eqn:Hy.
  - apply elem_of_cons in Hin as [->|Hin]; [congruence|].
    destruct (IH Hin Hx) as (k & Hk & Hdk & ->).
    exists k. split; [by right|]. done.
  - exists y. split; [by left|]. done.
Qed.

Lemma index_where_self rt (d : gmap string string) xs :
  ∃ names, index_where rt d d xs = Ok names.
Proof.
  unfold index_where.
  destruct (index_all_guarded d (filter (λ x, x ∈ dom d) (set_iter rt xs)))
    as (ns & -> & _); [|by eexists].
  apply Forall_forall. intros x [? _]%list_elem_of_filter. done.
Qed.

Lemma index_where_missing rt (d guard : gmap string string) xs x :
  x ∈ xs → x ∈ dom guard → x ∉ dom d →
  ∃ k, k ∈ xs ∧ k ∈ dom guard ∧ (k ∉ dom d) ∧
       index_where rt d guard xs = Err (KeyError k).
Proof.
  intros Hx Hg Hd.
  destruct (index_all_missing d
              (filter (λ x, x ∈ dom guard) (set_iter rt xs)) x)
    as (k & Hk & Hdk & Hidx).
  { apply list_elem_of_filter. split; [done|].
    rewrite (set_iter_perm rt xs). by apply elem_of_elements. }
  { by apply not_elem_of_dom. }
  apply list_elem_of_filter in Hk as [Hkg Hk].
  rewrite (set_iter_perm rt xs) in Hk. apply elem_of_elements in Hk.
  exists k. repeat split; [done..|apply not_elem_of_dom; done|].
  unfold index_where. by rewrite Hidx.
Qed.

(** C9. When the image set of a group in the Lineage Index holds an entry
    that is a key of [model_uri_to_name] and not of [model_image_to_name],
    building the record of the group raises [KeyError] on such an entry: the
    guard of the comprehension reads one table, the subscript the other. *)
Theorem group_image_guard_raises_KeyError rt g st arn imgs x :
  Dict.lookup g "ModelPackageGroupArn" = Some (VStr arn) →
  group_model_images (lineage (self st)) !! arn = Some imgs →
  x ∈ imgs →
  x ∈ dom (model_uri_to_name (self st)) →
  x ∉ dom (model_image_to_name (self st)) →
  ∃ k, k ∈ imgs ∧ k ∈ dom (model_uri_to_name (self st)) ∧
       (k ∉ dom (model_image_to_name (self st))) ∧
       get_group_wu rt g st = (Err (KeyError k), st).
Proof.
  intros Harn Himgs Hx Hxu Hxi.
  destruct (index_where_missing rt (model_image_to_name (self st))
              (model_uri_to_name (self st)) imgs x Hx Hxu Hxi)
    as (k & Hk & Hku & Hki & Hidx).
  exists k. repeat split; [done..|].
  unfold get_group_wu.
  rewrite bind_get_self, bind_lift, (getitem_lookup _ _ _ Harn), bind_lift.
  unfold group_model_names. rewrite !table_get_str, Himgs. simpl.
  destruct (group_model_uris (lineage (self st)) !! arn) as [uris|]; simpl.
  - destruct (index_where_self rt (model_uri_to_name (self st)) uris)
      as (names & ->). simpl. by rewrite Hidx.
  - by rewrite Hidx.
Qed.

Lemma get_group_wu_inv rt g st wu st' :
  get_group_wu rt g st = (Ok wu, st') →
  ∃ arn names owners,
    Dict.lookup g "ModelPackageGroupArn" = Some arn ∧
    group_model_names rt (self st) arn = Ok names ∧
    group_owners g = Ok owners ∧
    wu_owners wu = [owners] ∧
    wu_models wu =
      [py_sorted ((λ model_name,
                     make_ml_model_urn rt "sagemaker" model_name
                       (env (self st))) <$> set_iter rt names)] ∧
    st' = tick st.
Proof.
  intros H. unfold get_group_wu in H. inv_run H.
  apply ret_inv in H as [-> ->]. apply getitem_inv in H1.
  injection H0 as <-. injection H5 as <-.
  eexists _, _, _. repeat split; eauto.
Qed.


(** ** [sorted] *)
Section sorted_facts.
Context {A : Type} (key : A → string).

Definition key_le (x y : A) : Prop := String.le (key x) (key y).

Lemma insert_by_perm x l : insert_by key x l ≡ₚ x :: l.
Proof.
  induction l as [|y l IH]; simpl; [done|].
  case_decide; [done|]. rewrite IH. apply Permutation_swap.
Qed.

Lemma sorted_by_perm l : sorted_by key l ≡ₚ l.
Proof.
  induction l as [|x l IH]; simpl; [done|].
  rewrite insert_by_perm. by f_equiv.
Qed.

Lemma key_le_trans x y z : key_le x y → key_le y z → key_le x z.
Proof. unfold key_le. intros ??. by etrans. Qed.

Lemma insert_by_sorted x l :
  StronglySorted key_le l → StronglySorted key_le (insert_by key x l).
Proof.
  induction 1 as [|y l Hl IH Hy]; simpl.
  - repeat constructor.
  - case_decide as Hxy.
    + constructor; [by constructor|].
      constructor; [done|].
      eapply Forall_impl; [exact Hy|]. intros z Hz.
      by apply key_le_trans with y.
    + constructor; [done|].
      rewrite insert_by_perm. constructor; [|done].
      destruct (total String.le (key x) (key y)); done.
Qed.

Lemma sorted_by_sorted l : StronglySorted key_le (sorted_by key l).
Proof.
  induction l as [|x l IH]; simpl; [constructor|].
  by apply insert_by_sorted.
Qed.

(** Two listings of the same entries, in any order, are sorted into the
    same list when the key identifies the entry. *)
Lemma sorted_by_perm_eq l1 l2 :
  l1 ≡ₚ l2 →
  (∀ x y, x ∈ l1 → y ∈ l1 → key x = key y → x = y) →
  sorted_by key l1 = sorted_by key l2.
Proof.
  intros Hp Hinj.
  apply (StronglySorted_unique_strong key_le);
    [|apply sorted_by_sorted..|by rewrite !sorted_by_perm].
  intros x y Hx Hy Hxy Hyx.
  rewrite sorted_by_perm in Hx. rewrite sorted_by_perm, <-Hp in Hy.
  apply Hinj; [done..|]. by apply (anti_symm String.le).
Qed.
End sorted_facts.

Lemma py_sorted_perm l : py_sorted l ≡ₚ l.
Proof. apply sorted_by_perm. Qed.

Lemma py_sorted_sorted l : StronglySorted String.le (py_sorted l).
Proof. apply (sorted_by_sorted (λ s : string, s)). Qed.

Lemma py_sorted_perm_eq l1 l2 : l1 ≡ₚ l2 → py_sorted l1 = py_sorted l2.
Proof. intros Hp. apply sorted_by_perm_eq; [done|auto]. Qed.

Lemma py_sorted_elem_of x l : x ∈ py_sorted l ↔ x ∈ l.
Proof. by rewrite py_sorted_perm. Qed.

Lemma py_sorted_NoDup l : NoDup l → NoDup (py_sorted l).
Proof. by rewrite py_sorted_perm. Qed.

(** [sorted(list(s))] does not depend on the iteration order of [s]. *)
Lemma py_sorted_set_iter rt1 rt2 (X : gset string) :
  py_sorted (set_iter rt1 X) = py_sorted (set_iter rt2 X).
Proof. apply py_sorted_perm_eq. by rewrite !set_iter_perm. Qed.

Lemma set_iter_elem_of rt (X : gset string) x : x ∈ set_iter rt X ↔ x ∈ X.
Proof. rewrite set_iter_perm. apply elem_of_elements. Qed.

Lemma set_iter_NoDup rt (X : gset string) : NoDup (set_iter rt X).
Proof. rewrite set_iter_perm. apply NoDup_elements. Qed.

(** ** Model records *)

(** The ARNs filed in a mapping of the Lineage Index under a value. *)
Definition arns_under (m : gmap string (gset string)) (v : value) : gset string :=
  match v with
  | VStr s => default ∅ (m !! s)
  | _ => ∅
  end.

(** A side table after the write [table[v] = name], made when [v] is there. *)
Definition written (v name : value) (m : gmap string string)
  : gmap string string :=
  match v, name with
  | VStr s, VStr n => <[s := n]> m
  | _, _ => m
  end.

(** What [get_model_wu] leaves alone. *)
Definition model_frame (st st1 : State) : Prop :=
  sagemaker_client (self st1) = sagemaker_client (self st) ∧
  env (self st1) = env (self st) ∧
  report (self st1) = report (self st) ∧
  lineage (self st1) = lineage (self st) ∧
  model_image_to_jobs (self st1) = model_image_to_jobs (self st) ∧
  model_name_to_jobs (self st1) = model_name_to_jobs (self st) ∧
  clock_reads st1 = clock_reads st ∧
  yielded st1 = yielded st.

Lemma model_frame_refl st : model_frame st st.
Proof. by repeat split. Qed.

Lemma model_frame_trans st1 st2 st3 :
  model_frame st1 st2 → model_frame st2 st3 → model_frame st1 st3.
Proof.
  unfold model_frame. intros (?&?&?&?&?&?&?&?) (?&?&?&?&?&?&?&?).
  repeat split; congruence.
Qed.

Ltac inv_model_block H :=
  inv_run H;
  repeat match goal with
  | H : _ ≫= _ = Ok _ |- _ =>
      apply result_bind_inv in H as (? & ?%getitem_inv & ?)
  | H : as_str (VStr _) = Ok _ |- _ => injection H as <-
  | H : as_str _ = Ok _ |- _ => discriminate H
  | H : as_str ?v = Ok _ |- _ => is_var v; destruct v; try discriminate H
  | H : mret _ _ = (Ok _, _) |- _ => apply ret_inv in H as [-> ->]
  | H : Ok _ = Ok _ |- _ => injection H as <-
  | H : modify_self _ _ = (Ok _, _) |- _ =>
      unfold modify_self in H; injection H as <-
  end.

Lemma endpoints_by_image_inv d image eps0 st eps st1 :
  endpoints_by_image d image eps0 st = (Ok eps, st1) →
  eps = eps0 ∪ arns_under (model_image_endpoints (lineage (self st))) image ∧
  model_uri_to_name (self st1) = model_uri_to_name (self st) ∧
  model_frame st st1 ∧
  ∀ name, Dict.lookup d "ModelName" = Some name →
    model_image_to_name (self st1) =
      written image name (model_image_to_name (self st)).
Proof.
  intros H. unfold endpoints_by_image in H.
  destruct image as [|si| | | |]; inv_model_block H; simpl.
  - split; [by rewrite (right_id_L ∅ (∪))|].
    split; [done|]. split; [apply model_frame_refl|].
    done.
  - split; [done|]. split; [done|]. split; [by repeat split|].
    intros name Hn. rewrite Hn in *. by simplify_eq.
Qed.

Lemma endpoints_by_uri_inv d uri eps0 st eps st1 :
  endpoints_by_uri d uri eps0 st = (Ok eps, st1) →
  eps = eps0 ∪ arns_under (model_uri_endpoints (lineage (self st))) uri ∧
  model_image_to_name (self st1) = model_image_to_name (self st) ∧
  model_frame st st1 ∧
  ∀ name, Dict.lookup d "ModelName" = Some name →
    model_uri_to_name (self st1) =
      written uri name (model_uri_to_name (self st)).
Proof.
  intros H. unfold endpoints_by_uri in H.
  destruct uri as [|si| | | |]; inv_model_block H; simpl.
  - split; [by rewrite (right_id_L ∅ (∪))|].
    split; [done|]. split; [apply model_frame_refl|].
    done.
  - split; [done|]. split; [done|]. split; [by repeat split|].
    intros name Hn. rewrite Hn in *. by simplify_eq.
Qed.

(** The record that [get_model_wu] builds. *)
Definition model_wu_of rt (d : pydict) (a2n : gmap string value)
    (e : string) (eps tj dj : gset string) (name : value) (ms : Z)
  : MetadataWorkUnit :=
  {| id := py_str rt name;
     mce := {| proposedSnapshot :=
       MLModelSnapshot
         (make_ml_model_urn rt "sagemaker" (py_str rt name) e)
         [MLModelPropertiesClass ms
            ((λ endpoint_name,
                make_ml_model_deployment_urn rt "sagemaker" endpoint_name e)
               <$> py_sorted (filter (λ x, x ∈ dom a2n) (set_iter rt eps)))
            (custom_properties rt ["ModelName"; "CreationTime"] d)
            (py_sorted (set_iter rt tj))
            (py_sorted (set_iter rt dj))] |} |}.

Lemma get_model_wu_inv rt d a2n st wu st' :
  get_model_wu rt d a2n st = (Ok wu, st') →
  ∃ image uri urls tj dj name ms,
    value_get (Dict.get_default d "PrimaryContainer" (VDict [])) "Image"
      = Ok image ∧
    value_get (Dict.get_default d "PrimaryContainer" (VDict [])) "ModelDataUrl"
      = Ok uri ∧
    model_data_urls d = Ok urls ∧
    model_jobs (self st) d urls = Ok (tj, dj) ∧
    Dict.lookup d "ModelName" = Some name ∧
    timestamp_ms (Dict.get_default d "CreationTime"
                    (VDatetime (clock rt (clock_reads st)))) = Ok ms ∧
    model_image_to_name (self st') =
      written image name (model_image_to_name (self st)) ∧
    model_uri_to_name (self st') =
      written uri name (model_uri_to_name (self st)) ∧
    model_frame (tick st) st' ∧
    wu = model_wu_of rt d a2n (env (self st))
           (arns_under (model_image_endpoints (lineage (self st))) image ∪
            arns_under (model_uri_endpoints (lineage (self st))) uri)
           tj dj name ms.
Proof.
  intros H. unfold get_model_wu in H. inv_run H.
  match type of H with
  | context [let '(_, _) := ?p in _] => destruct p as [tj dj]
  end.
  inv_run H. apply ret_inv in H as [-> ->].
  repeat match goal with
  | H : Ok _ = Ok _ |- _ => injection H as <-
  | H : Dict.getitem _ _ = Ok _ |- _ => apply getitem_inv in H
  end.
  simplify_eq.
  match goal with
  | Hi : endpoints_by_image _ _ _ _ = _, Hu : endpoints_by_uri _ _ _ _ = _,
    Hj : model_jobs _ _ _ = _, Ht : timestamp_ms _ = _,
    Hn : Dict.lookup _ "ModelName" = _ |- _ =>
      pose proof (endpoints_by_image_inv _ _ _ _ _ _ Hi)
        as (-> & Hu0 & Hf0 & Hi0);
      pose proof (endpoints_by_uri_inv _ _ _ _ _ _ Hu)
        as (-> & Hi1 & Hf1 & Hu1);
      pose proof (model_frame_trans _ _ _ Hf0 Hf1) as Hf;
      specialize (Hi0 _ Hn); specialize (Hu1 _ Hn);
      rename Hj into Hjobs, Ht into Hts
  end.
  destruct Hf0 as (_&_&_&Hl0&_). rewrite Hl0 in *.
  destruct Hf as (Hc&He&Hr&Hl&Hij&Hnj&Hck&Hy).
  assert (Hj : ∀ urls, model_jobs (self st1) d urls = model_jobs (self st) d urls).
  { intros urls. unfold model_jobs. by rewrite Hij, Hnj. }
  rewrite Hj in Hjobs. rewrite Hck in Hts.
  eexists _, _, _, tj, dj, _, _.
  repeat split; eauto; simpl; try congruence.
  unfold model_wu_of. by rewrite He, (left_id_L ∅ (∪)).
Qed.

(** ** Job references *)

(** The jobs filed in a job mapping under a value. *)
Definition jobs_filed_under (m : gmap string (gset ModelJob)) (v : value)
  : gset ModelJob :=
  match v with
  | VStr s => default ∅ (m !! s)
  | _ => ∅
  end.

(** The jobs that reference a model: those filed in [model_image_to_jobs]
    under one of its model data URLs, and those filed in [model_name_to_jobs]
    under its name. *)
Definition referencing_jobs (p : ModelProcessor) (urls : list value)
    (name : value) : gset ModelJob :=
  ⋃ (jobs_filed_under (model_image_to_jobs p) <$> urls) ∪
  jobs_filed_under (model_name_to_jobs p) name.

Lemma elem_of_job_urns dir u (X : gset ModelJob) :
  u ∈ job_urns dir X ↔ {| job_urn := u; job_direction := dir |} ∈ X.
Proof.
  unfold job_urns. rewrite elem_of_map. split.
  - intros ([u' dir'] & -> & [Hd Hx]%elem_of_filter). simpl in *. by subst.
  - intros Hx. eexists. split; [|apply elem_of_filter; split; [|exact Hx]]; done.
Qed.

Lemma job_urns_union dir (X Y : gset ModelJob) :
  job_urns dir (X ∪ Y) = job_urns dir X ∪ job_urns dir Y.
Proof.
  apply set_eq. intros u.
  rewrite elem_of_union, !elem_of_job_urns, elem_of_union. done.
Qed.

Lemma job_urns_empty dir : job_urns dir ∅ = ∅.
Proof.
  apply set_eq. intros u. rewrite elem_of_job_urns. set_solver.
Qed.

Lemma table_get_jobs (m : gmap string (gset ModelJob)) v o :
  table_get m v = Ok o → default ∅ o = jobs_filed_under m v.
Proof.
  unfold table_get. destruct v; simpl; intros [= <-]; done.
Qed.

Lemma data_url_jobs_spec jobs urls t d t' d' :
  data_url_jobs jobs urls t d = Ok (t', d') →
  t' = t ∪ job_urns TRAINING (⋃ (jobs_filed_under jobs <$> urls)) ∧
  d' = d ∪ job_urns DOWNSTREAM (⋃ (jobs_filed_under jobs <$> urls)).
Proof.
  revert t d. induction urls as [|v urls IH]; simpl; intros t d H.
  - injection H as <- <-. simpl. rewrite !job_urns_empty, !(right_id_L ∅ (∪)). done.
  - apply result_bind_inv in H as (o & Ho & H).
    apply IH in H as [-> ->]. apply table_get_jobs in Ho. rewrite Ho.
    rewrite !job_urns_union, !(assoc_L (∪)). done.
Qed.

Lemma model_jobs_spec p d urls tj dj name :
  model_jobs p d urls = Ok (tj, dj) →
  Dict.lookup d "ModelName" = Some name →
  tj = job_urns TRAINING (referencing_jobs p urls name) ∧
  dj = job_urns DOWNSTREAM (referencing_jobs p urls name).
Proof.
  unfold model_jobs. intros H Hn.
  apply result_bind_inv in H as ([t0 d0] & H0 & H).
  apply data_url_jobs_spec in H0 as [-> ->].
  rewrite (getitem_lookup _ _ _ Hn) in H. simpl in H.
  apply result_bind_inv in H as (o & Ho%table_get_jobs & H).
  injection H as <- <-. rewrite Ho. unfold referencing_jobs.
  rewrite !job_urns_union, ?job_urns_empty, !(left_id_L ∅ (∪)). done.
Qed.

(** [v] when it is not [None]. *)
Definition not_none (v : value) : option value :=
  match v with
  | VNone => None
  | _ => Some v
  end.

Lemma container_data_urls_spec cs acc urls :
  container_data_urls cs acc = Ok urls →
  ∃ vs, Forall2 (λ c v, value_get c "ModelDataUrl" = Ok v) cs vs ∧
        urls = acc ++ omap not_none vs.
Proof.
  revert acc. induction cs as [|c cs IH]; simpl; intros acc H.
  - injection H as <-. exists []. split; [constructor|].
    simpl. by rewrite app_nil_r.
  - apply result_bind_inv in H as (v & Hv & H).
    destruct v; apply IH in H as (vs & Hvs & ->);
      (eexists (_ :: vs); split; [by constructor|]);
      simpl; by rewrite <-?(assoc_L (++)).
Qed.

Lemma model_data_urls_spec d urls :
  model_data_urls d = Ok urls →
  ∃ cs vs primary,
    as_list (Dict.get_default d "Containers" (VList [])) = Ok cs ∧
    Forall2 (λ c v, value_get c "ModelDataUrl" = Ok v) cs vs ∧
    value_get (Dict.get_default d "PrimaryContainer" (VDict []))
              "ModelDataUrl" = Ok primary ∧
    urls = omap not_none (vs ++ [primary]).
Proof.
  unfold model_data_urls. intros H.
  apply result_bind_inv in H as (cs & Hcs & H).
  apply result_bind_inv in H as (us & Hus & H).
  apply result_bind_inv in H as (primary & Hp & H).
  apply container_data_urls_spec in Hus as (vs & Hvs & ->).
  exists cs, vs, primary. repeat split; [done..|].
  rewrite omap_app. simpl.
  destruct primary; injection H as <-; simpl; by rewrite ?app_nil_r.
Qed.

Lemma jobs_filed_under_not_none m (vs : list value) :
  ⋃ (jobs_filed_under m <$> omap not_none vs) = ⋃ (jobs_filed_under m <$> vs).
Proof.
  induction vs as [|v vs IH]; [done|].
  destruct v; csimpl; rewrite IH; by rewrite ?(left_id_L ∅ (∪)).
Qed.

Lemma referencing_jobs_not_none p (vs : list value) name :
  referencing_jobs p (omap not_none vs) name = referencing_jobs p vs name.
Proof. unfold referencing_jobs. by rewrite jobs_filed_under_not_none. Qed.

Lemma py_sorted_singleton rt (X : gset string) a :
  X = {[a]} → py_sorted (set_iter rt X) = [a].
Proof.
  intros ->. pose proof (set_iter_perm rt {[a]}) as Hp.
  rewrite elements_singleton in Hp. apply Permutation_singleton_r in Hp.
  by rewrite Hp.
Qed.

(** C3, amended. The jobs of a model record are those filed in
    [model_image_to_jobs] under a model data URL of one of its containers or
    of its primary container (never under its image path), and those filed
    in [model_name_to_jobs] under its name; the training jobs and the
    downstream jobs among them make two sorted lists without duplicates.
    When these jobs are [{A: TRAINING, B: DOWNSTREAM}] the lists are [[A]]
    and [[B]]. *)
Theorem model_jobs_partitioned_by_direction rt d a2n st wu st' :
  get_model_wu rt d a2n st = (Ok wu, st') →
  ∃ cs vs primary name jobs tl dl,
    as_list (Dict.get_default d "Containers" (VList [])) = Ok cs ∧
    Forall2 (λ c v, value_get c "ModelDataUrl" = Ok v) cs vs ∧
    value_get (Dict.get_default d "PrimaryContainer" (VDict []))
              "ModelDataUrl" = Ok primary ∧
    Dict.lookup d "ModelName" = Some name ∧
    jobs = referencing_jobs (self st) (vs ++ [primary]) name ∧
    wu_trainingJobs wu = [tl] ∧ wu_downstreamJobs wu = [dl] ∧
    StronglySorted String.le tl ∧ NoDup tl ∧
    (∀ u, u ∈ tl ↔ {| job_urn := u; job_direction := TRAINING |} ∈ jobs) ∧
    StronglySorted String.le dl ∧ NoDup dl ∧
    (∀ u, u ∈ dl ↔ {| job_urn := u; job_direction := DOWNSTREAM |} ∈ jobs) ∧
    ∀ a b,
      jobs = {[ {| job_urn := a; job_direction := TRAINING |};
                {| job_urn := b; job_direction := DOWNSTREAM |} ]} →
      tl = [a] ∧ dl = [b].
Proof.
  intros H. apply get_model_wu_inv in H
    as (image & uri & urls & tj & dj & name & ms &
        _ & _ & Hurls & Hjobs & Hname & _ & _ & _ & _ & ->).
  apply model_data_urls_spec in Hurls as (cs & vs & primary & Hcs & Hvs & Hp & ->).
  apply (model_jobs_spec _ _ _ _ _ name) in Hjobs as [-> ->]; [|done].
  rewrite referencing_jobs_not_none.
  eexists cs, vs, primary, name, _, _, _.
  do 5 (split; [done|]). split; [reflexivity|]. split; [reflexivity|].
  generalize (referencing_jobs (self st) (vs ++ [primary]) name) as jobs.
  intros jobs. repeat split.
  - apply py_sorted_sorted.
  - apply py_sorted_NoDup, set_iter_NoDup.
  - by rewrite py_sorted_elem_of, set_iter_elem_of, elem_of_job_urns.
  - by rewrite py_sorted_elem_of, set_iter_elem_of, elem_of_job_urns.
  - apply py_sorted_sorted.
  - apply py_sorted_NoDup, set_iter_NoDup.
  - by rewrite py_sorted_elem_of, set_iter_elem_of, elem_of_job_urns.
  - by rewrite py_sorted_elem_of, set_iter_elem_of, elem_of_job_urns.
  - apply py_sorted_singleton. rewrite H. apply set_eq. intros u.
    rewrite elem_of_job_urns, elem_of_union, !elem_of_singleton.
    split; [intros [[= ->]|[=]]; done|intros ->; by left].
  - apply py_sorted_singleton. rewrite H. apply set_eq. intros u.
    rewrite elem_of_job_urns, elem_of_union, !elem_of_singleton.
    split; [intros [[=]|[= ->]]; done|intros ->; by right].
Qed.

(** ** The claims on the account of [Fixture] *)

Lemma unmapped_status_falls_back_with_one_warning_witness :
  ∃ wu st',
    get_endpoint_wu rt0 Fixture.endpoint_b_details (Fixture.start false)
      = (Ok wu, st') ∧
    wu_status wu = [UNKNOWN] ∧
    warnings (report (self st')) =
      [(VStr "ep-b",
        "Unknown status for " +:+ Fixture.arn "endpoint" "ep-b" +:+
        " (ep-b): Paused")].
Proof.
  apply (unmapped_status_falls_back_with_one_warning rt0
           Fixture.endpoint_b_details (Fixture.start false)
           (VStr "ep-b") (VStr (Fixture.arn "endpoint" "ep-b")) "Paused" 2000);
    vm_compute; reflexivity.
Defined.

Lemma missing_status_is_unknown_without_warning_witness :
  let run := get_endpoint_wu rt0 Fixture.endpoint_c_details
               (Fixture.start false) in
  wu_status (Fixture.emitted run) = [UNKNOWN] ∧
  warnings (report (self run.2)) =
    warnings (report (self (Fixture.start false))).
Proof.
  intros run.
  apply (missing_status_is_unknown_without_warning rt0
           Fixture.endpoint_c_details (Fixture.start false)
           (Fixture.emitted run) run.2);
    vm_compute; reflexivity.
Defined.

Lemma group_image_guard_raises_KeyError_witness :
  ∃ k, k ∈ ({[ "u1" ]} : gset string) ∧
       k ∈ dom (model_uri_to_name (self Fixture.after_models)) ∧
       (k ∉ dom (model_image_to_name (self Fixture.after_models))) ∧
       get_group_wu rt0 Fixture.group_2_details Fixture.after_models
         = (Err (KeyError k), Fixture.after_models).
Proof.
  apply (group_image_guard_raises_KeyError rt0 Fixture.group_2_details
           Fixture.after_models (Fixture.arn "group" "g2")
           {[ "u1" ]} "u1").
  - vm_compute; reflexivity.
  - vm_compute; reflexivity.
  - apply elem_of_singleton. reflexivity.
  - apply elem_of_dom. vm_compute. eexists. reflexivity.
  - apply not_elem_of_dom. vm_compute. reflexivity.
Defined.


Lemma model_jobs_partitioned_by_direction_witness :
  let run := get_model_wu rt0 Fixture.model_2_details ∅ (Fixture.start false) in
  ∃ cs vs primary name jobs tl dl,
    as_list (Dict.get_default Fixture.model_2_details "Containers" (VList []))
      = Ok cs ∧
    Forall2 (λ c v, value_get c "ModelDataUrl" = Ok v) cs vs ∧
    value_get (Dict.get_default Fixture.model_2_details "PrimaryContainer"
                 (VDict [])) "ModelDataUrl" = Ok primary ∧
    Dict.lookup Fixture.model_2_details "ModelName" = Some name ∧
    jobs = referencing_jobs (self (Fixture.start false)) (vs ++ [primary]) name ∧
    wu_trainingJobs (Fixture.emitted run) = [tl] ∧
    wu_downstreamJobs (Fixture.emitted run) = [dl] ∧
    StronglySorted String.le tl ∧ NoDup tl ∧
    (∀ u, u ∈ tl ↔ {| job_urn := u; job_direction := TRAINING |} ∈ jobs) ∧
    StronglySorted String.le dl ∧ NoDup dl ∧
    (∀ u, u ∈ dl ↔ {| job_urn := u; job_direction := DOWNSTREAM |} ∈ jobs) ∧
    ∀ a b,
      jobs = {[ {| job_urn := a; job_direction := TRAINING |};
                {| job_urn := b; job_direction := DOWNSTREAM |} ]} →
      tl = [a] ∧ dl = [b].
Proof.
  intros run.
  apply (model_jobs_partitioned_by_direction rt0 Fixture.model_2_details ∅
           (Fixture.start false) (Fixture.emitted run) run.2).
  vm_compute; reflexivity.
Defined.

(** C3, as stated, fails: the jobs [{A: TRAINING, B: DOWNSTREAM}] filed
    under the image path ["i1"] of model [M1] reach neither list of its
    record, since [model_image_to_jobs] is read under model data URLs. *)
Lemma jobs_filed_under_image_path_are_not_found :
  let run := get_model_wu rt0 Fixture.model_1_details ∅ (Fixture.start false) in
  value_get (Dict.get_default Fixture.model_1_details "PrimaryContainer"
               (VDict [])) "Image" = Ok (VStr "i1") ∧
  model_image_to_jobs (self (Fixture.start false)) !! "i1" =
    Some {[ Fixture.job "A" TRAINING; Fixture.job "B" DOWNSTREAM ]} ∧
  run.1 = Ok (Fixture.emitted run) ∧
  wu_trainingJobs (Fixture.emitted run) = [[]] ∧
  wu_downstreamJobs (Fixture.emitted run) = [[]] ∧
  wu_trainingJobs (Fixture.emitted run) ≠ [["A"]] ∧
  wu_downstreamJobs (Fixture.emitted run) ≠ [["B"]].
Proof.
  intros run.
  assert (Ht : wu_trainingJobs (Fixture.emitted run) = [[]])
    by (vm_compute; reflexivity).
  assert (Hd : wu_downstreamJobs (Fixture.emitted run) = [[]])
    by (vm_compute; reflexivity).
  split_and!; try (vm_compute; reflexivity); try done.
Qed.

(** C1, on the account of [Fixture]: the deployment list of the record of
    model [M1] is built from the endpoint ARNs themselves, in the order of
    the ARNs; no ARN is mapped to the name under which the endpoint record
    is emitted. *)
Theorem model_deployments_are_built_from_arns :
  let st := (get_workunits rt0 (Fixture.start false)).2 in
  wu_urn <$> take 2 (yielded st) =
    [urn_of "mlModelDeployment" "sagemaker" "ep-a" "PROD";
     urn_of "mlModelDeployment" "sagemaker" "ep-b" "PROD"] ∧
  wu_deployments <$> yielded st !! 2 =
    Some [[urn_of "mlModelDeployment" "sagemaker"
             (Fixture.arn "endpoint" "ep-a") "PROD";
           urn_of "mlModelDeployment" "sagemaker"
             (Fixture.arn "endpoint" "ep-b") "PROD"]].
Proof. split; vm_compute; reflexivity. Qed.

(** C2, on the account of [Fixture]: group [G1] is linked to the model uri
    ["u1"] of model [M1] and to the image ["i2"] of model [M2], both side
    tables have the entry, and the record of the group lists [M1] alone. *)
Theorem group_members_by_image_are_dropped :
  let st := (get_workunits rt0 (Fixture.start false)).2 in
  group_model_uris (lineage (self st)) !! Fixture.arn "group" "g1"
    = Some {[ "u1" ]} ∧
  group_model_images (lineage (self st)) !! Fixture.arn "group" "g1"
    = Some {[ "i2" ]} ∧
  model_uri_to_name (self st) !! "u1" = Some "M1" ∧
  model_image_to_name (self st) !! "i2" = Some "M2" ∧
  wu_models <$> yielded st !! 4 =
    Some [[urn_of "mlModel" "sagemaker" "M1" "PROD"]].
Proof. split_and!; vm_compute; reflexivity. Qed.

(** ** Two runs side by side *)

(** The [describe] calls of two clients answer alike. *)
Definition same_describes (c1 c2 : Client) : Prop :=
  (∀ n, describe_endpoint c1 n = describe_endpoint c2 n) ∧
  (∀ n, describe_model c1 n = describe_model c2 n) ∧
  (∀ n, describe_model_package_group c1 n = describe_model_package_group c2 n).

(** Every entity that a client describes carries a creation time. *)
Definition carries_creation_time (c : Client) : Prop :=
  (∀ n d, describe_endpoint c n = Ok d →
          is_Some (Dict.lookup d "CreationTime")) ∧
  (∀ n d, describe_model c n = Ok d →
          is_Some (Dict.lookup d "CreationTime")) ∧
  (∀ n d, describe_model_package_group c n = Ok d →
          is_Some (Dict.lookup d "CreationTime")).

(** Both calls return, with related values, or both raise. *)
Definition res_rel {A} (R : A → A → Prop) (r1 r2 : result A) : Prop :=
  match r1, r2 with
  | Ok a, Ok b => R a b
  | Err _, Err _ => True
  | _, _ => False
  end.

(** The listing of one entity type, all pages concatenated. *)
Definition listing (c : Client) (op field : string) : result (list value) :=
  pages ← paginate c op; extend_pages field pages [].

(** No two entries of a listing share their sort key. *)
Definition key_identifies (key : string) (l : list value) : Prop :=
  ∀ x y k, x ∈ l → y ∈ l →
    value_getitem x key = Ok k → value_getitem y key = Ok k → x = y.

(** Two clients list the same entities, in any order. *)
Definition same_entities (op field key : string) (c1 c2 : Client) : Prop :=
  res_rel (λ l1 l2, l1 ≡ₚ l2 ∧ key_identifies key l1)
          (listing c1 op field) (listing c2 op field).

(** Two clients that give the same API responses, up to the order of the
    listings, in which every entity has a creation time. *)
Definition sim_client (c1 c2 : Client) : Prop :=
  same_describes c1 c2 ∧
  carries_creation_time c1 ∧
  same_entities "list_endpoints" "Endpoints" "EndpointArn" c1 c2 ∧
  same_entities "list_models" "Models" "ModelArn" c1 c2 ∧
  same_entities "list_model_package_groups" "ModelPackageGroupSummaryList"
                "ModelPackageGroupName" c1 c2.

(** Two processors that differ at most in their clients. *)
Definition sim_proc (p1 p2 : ModelProcessor) : Prop :=
  sim_client (sagemaker_client p1) (sagemaker_client p2) ∧
  env p1 = env p2 ∧
  report p1 = report p2 ∧
  lineage p1 = lineage p2 ∧
  model_image_to_jobs p1 = model_image_to_jobs p2 ∧
  model_name_to_jobs p1 = model_name_to_jobs p2 ∧
  model_uri_to_name p1 = model_uri_to_name p2 ∧
  model_image_to_name p1 = model_image_to_name p2.

Definition sim_state (st1 st2 : State) : Prop :=
  sim_proc (self st1) (self st2) ∧
  clock_reads st1 = clock_reads st2 ∧
  yielded st1 = yielded st2.

Definition sim_run {A} (R : A → A → Prop) (x y : result A * State) : Prop :=
  sim_state x.2 y.2 ∧ res_rel R x.1 y.1.

(** Two runtimes that format values and build URNs alike; they may iterate
    sets in different orders and read different clocks. *)
Definition same_formats (rt1 rt2 : Runtime) : Prop :=
  str_any rt1 = str_any rt2 ∧
  make_ml_model_urn rt1 = make_ml_model_urn rt2 ∧
  make_ml_model_deployment_urn rt1 = make_ml_model_deployment_urn rt2 ∧
  make_ml_model_group_urn rt1 = make_ml_model_group_urn rt2.

Lemma res_rel_refl {A} (r : result A) : res_rel eq r r.
Proof. by destruct r. Qed.

Lemma sim_bind {A B} (R : A → A → Prop) (R' : B → B → Prop)
    (m1 m2 : M A) (f1 f2 : A → M B) st1 st2 :
  sim_run R (m1 st1) (m2 st2) →
  (∀ a1 a2 s1 s2, R a1 a2 → sim_state s1 s2 → sim_run R' (f1 a1 s1) (f2 a2 s2)) →
  sim_run R' ((m1 ≫= f1) st1) ((m2 ≫= f2) st2).
Proof.
  intros [Hs Hr] Hf. rewrite !bind_step.
  destruct (m1 st1) as [[a1|e1] s1], (m2 st2) as [[a2|e2] s2];
    simpl in *; try done.
  by apply Hf.
Qed.

Lemma sim_lift {A} (R : A → A → Prop) (r1 r2 : result A) st1 st2 :
  res_rel R r1 r2 → sim_state st1 st2 → sim_run R (lift r1 st1) (lift r2 st2).
Proof. by split. Qed.

Lemma sim_ret {A} (R : A → A → Prop) (a1 a2 : A) st1 st2 :
  R a1 a2 → sim_state st1 st2 →
  sim_run R (mret (M := M) a1 st1) (mret (M := M) a2 st2).
Proof. by split. Qed.

Lemma sim_get_self st1 st2 :
  sim_state st1 st2 → sim_run sim_proc (get_self st1) (get_self st2).
Proof. intros Hs. split; [done|]. apply Hs. Qed.

Lemma sim_datetime_now rt1 rt2 st1 st2 :
  sim_state st1 st2 →
  sim_run (λ _ _, True) (datetime_now rt1 st1) (datetime_now rt2 st2).
Proof.
  intros (Hp & Hc & Hy). split; [|done]. split; [done|]. simpl.
  split; congruence.
Qed.

Lemma sim_modify_self (f : ModelProcessor → ModelProcessor) st1 st2 :
  (∀ p1 p2, sim_proc p1 p2 → sim_proc (f p1) (f p2)) →
  sim_state st1 st2 →
  sim_run eq (modify_self f st1) (modify_self f st2).
Proof.
  intros Hf (Hp & Hc & Hy). split; [|done]. split; [by apply Hf|done].
Qed.

Lemma sim_yield wu st1 st2 :
  sim_state st1 st2 → sim_run eq (yield wu st1) (yield wu st2).
Proof.
  intros (Hp & Hc & Hy). split; [|done]. split; [done|]. simpl.
  split; congruence.
Qed.

Ltac sim_report :=
  apply sim_modify_self; intros p1 p2 (?&?&Hr&?&?&?&?&?);
  unfold sim_proc; simpl; rewrite Hr; by split_and!.

Lemma sim_report_warning k reason st1 st2 :
  sim_state st1 st2 →
  sim_run eq (Report.report_warning k reason st1)
             (Report.report_warning k reason st2).
Proof.
  sim_report.
Qed.

Lemma sim_report_endpoint_scanned st1 st2 :
  sim_state st1 st2 →
  sim_run eq (Report.report_endpoint_scanned st1)
             (Report.report_endpoint_scanned st2).
Proof.
  sim_report.
Qed.

Lemma sim_report_model_scanned st1 st2 :
  sim_state st1 st2 →
  sim_run eq (Report.report_model_scanned st1)
             (Report.report_model_scanned st2).
Proof.
  sim_report.
Qed.

Lemma sim_report_group_scanned st1 st2 :
  sim_state st1 st2 →
  sim_run eq (Report.report_group_scanned st1)
             (Report.report_group_scanned st2).
Proof.
  sim_report.
Qed.

Lemma sim_report_workunit wu st1 st2 :
  sim_state st1 st2 →
  sim_run eq (Report.report_workunit wu st1) (Report.report_workunit wu st2).
Proof.
  sim_report.
Qed.

Lemma py_str_same rt1 rt2 v :
  same_formats rt1 rt2 → py_str rt1 v = py_str rt2 v.
Proof. intros (Hs & _). destruct v; simpl; by rewrite ?Hs. Qed.

Lemma custom_properties_same rt1 rt2 fields d :
  same_formats rt1 rt2 →
  custom_properties rt1 fields d = custom_properties rt2 fields d.
Proof.
  intros Hf. unfold custom_properties. apply list_fmap_ext.
  intros _ [k v] _. simpl. by rewrite (py_str_same rt1 rt2).
Qed.

(** One step of a proof by simulation: the next bind on both sides. *)
Ltac sim_next :=
  lazymatch goal with
  | |- sim_run _ ((lift _ ≫= _) _) ((lift _ ≫= _) _) =>
      eapply sim_bind;
      [apply sim_lift; [apply res_rel_refl|assumption]|
       intros ? ? ? ? <- ?]
  | |- sim_run _ ((get_self ≫= _) _) ((get_self ≫= _) _) =>
      eapply sim_bind; [apply sim_get_self; assumption|intros ? ? ? ? ? ?]
  | |- sim_run _ ((datetime_now _ ≫= _) _) ((datetime_now _ ≫= _) _) =>
      eapply sim_bind; [apply sim_datetime_now; assumption|intros ? ? ? ? _ ?]
  | |- sim_run _ ((yield _ ≫= _) _) ((yield _ ≫= _) _) =>
      eapply sim_bind; [apply sim_yield; assumption|intros ? ? ? ? _ ?]
  | |- sim_run _ ((Report.report_warning _ _ ≫= _) _) _ =>
      eapply sim_bind; [apply sim_report_warning; assumption|intros ? ? ? ? _ ?]
  | |- sim_run _ ((Report.report_endpoint_scanned ≫= _) _) _ =>
      eapply sim_bind;
      [apply sim_report_endpoint_scanned; assumption|intros ? ? ? ? _ ?]
  | |- sim_run _ ((Report.report_model_scanned ≫= _) _) _ =>
      eapply sim_bind;
      [apply sim_report_model_scanned; assumption|intros ? ? ? ? _ ?]
  | |- sim_run _ ((Report.report_group_scanned ≫= _) _) _ =>
      eapply sim_bind;
      [apply sim_report_group_scanned; assumption|intros ? ? ? ? _ ?]
  | |- sim_run _ ((Report.report_workunit _ ≫= _) _) _ =>
      eapply sim_bind;
      [apply sim_report_workunit; assumption|intros ? ? ? ? _ ?]
  | |- sim_run _ (@mret M _ _ _ _) (@mret M _ _ _ _) =>
      apply sim_ret; [|assumption]
  end.

Lemma sim_get_endpoint_status rt1 rt2 n a s st1 st2 :
  same_formats rt1 rt2 → sim_state st1 st2 →
  sim_run eq (get_endpoint_status rt1 n a s st1)
             (get_endpoint_status rt2 n a s st2).
Proof.
  intros Hf Hs. unfold get_endpoint_status. sim_next.
  destruct a1; [by sim_next|].
  rewrite !(py_str_same rt1 rt2) by done. sim_next. by sim_next.
Qed.

Lemma get_default_present d k v default :
  Dict.lookup d k = Some v → Dict.get_default d k default = v.
Proof. unfold Dict.get_default. by intros ->. Qed.

Lemma sim_get_endpoint_wu rt1 rt2 d st1 st2 :
  same_formats rt1 rt2 → sim_state st1 st2 →
  is_Some (Dict.lookup d "CreationTime") →
  sim_run eq (get_endpoint_wu rt1 d st1) (get_endpoint_wu rt2 d st2).
Proof.
  intros Hf Hs [t Ht]. unfold get_endpoint_wu.
  sim_next. sim_next. sim_next.
  rewrite !(get_default_present _ _ _ _ Ht). sim_next. sim_next. sim_next.
  eapply sim_bind; [by apply sim_get_endpoint_status|].
  intros ? ? ? ? <- ?. sim_next. sim_next.
  destruct Hf as (? & ? & Hb & ?), H as (_ & He & _).
  rewrite !(py_str_same rt1 rt2), (custom_properties_same rt1 rt2), Hb, He;
    done.
Qed.

(** *** Model records *)

Lemma sim_endpoints_by_image d image eps st1 st2 :
  sim_state st1 st2 →
  sim_run eq (endpoints_by_image d image eps st1)
             (endpoints_by_image d image eps st2).
Proof.
  intros Hs. unfold endpoints_by_image.
  destruct image; try by sim_next.
  all: sim_next; sim_next;
    match goal with H : sim_proc _ _ |- _ => destruct H as (_&_&_&->&_) end;
    sim_next;
    (eapply sim_bind;
     [apply sim_modify_self; [|assumption]|intros ? ? ? ? _ ?; by sim_next]);
    intros p1 p2 (?&?&?&?&?&?&?&Hi); unfold sim_proc; simpl; rewrite Hi;
    by split_and!.
Qed.

Lemma sim_endpoints_by_uri d uri eps st1 st2 :
  sim_state st1 st2 →
  sim_run eq (endpoints_by_uri d uri eps st1)
             (endpoints_by_uri d uri eps st2).
Proof.
  intros Hs. unfold endpoints_by_uri.
  destruct uri; try by sim_next.
  all: sim_next; sim_next;
    match goal with H : sim_proc _ _ |- _ => destruct H as (_&_&_&->&_) end;
    sim_next;
    (eapply sim_bind;
     [apply sim_modify_self; [|assumption]|intros ? ? ? ? _ ?; by sim_next]);
    intros p1 p2 (?&?&?&?&?&?&Hu&?); unfold sim_proc; simpl; rewrite Hu;
    by split_and!.
Qed.

Lemma py_sorted_filter_set_iter rt1 rt2 (P : string → Prop)
    `{!∀ x, Decision (P x)} (X : gset string) :
  py_sorted (filter P (set_iter rt1 X)) = py_sorted (filter P (set_iter rt2 X)).
Proof. apply py_sorted_perm_eq. by rewrite !set_iter_perm. Qed.

Lemma model_jobs_same p1 p2 d urls :
  sim_proc p1 p2 → model_jobs p1 d urls = model_jobs p2 d urls.
Proof. intros (_&_&_&_&Hi&Hn&_). unfold model_jobs. by rewrite Hi, Hn. Qed.

Lemma sim_get_model_wu rt1 rt2 d a2n st1 st2 :
  same_formats rt1 rt2 → sim_state st1 st2 →
  is_Some (Dict.lookup d "CreationTime") →
  sim_run eq (get_model_wu rt1 d a2n st1) (get_model_wu rt2 d a2n st2).
Proof.
  intros Hf Hs [t Ht]. unfold get_model_wu.
  sim_next. sim_next.
  eapply sim_bind; [by apply sim_endpoints_by_image|intros ? ? ? ? <- ?].
  eapply sim_bind; [by apply sim_endpoints_by_uri|intros ? ? ? ? <- ?].
  sim_next. sim_next.
  match goal with
  | H : sim_proc ?p1 ?p2 |- _ =>
      rewrite (model_jobs_same p1 p2 _ _ H); destruct H as (_ & He & _)
  end.
  sim_next.
  match goal with |- context [let '(_, _) := ?p in _] => destruct p end.
  sim_next. sim_next. rewrite !(get_default_present _ _ _ _ Ht).
  sim_next. sim_next. sim_next.
  destruct Hf as (? & Hm & Hb & ?).
  rewrite !(py_str_same rt1 rt2), (custom_properties_same rt1 rt2), Hm, Hb, He
    by done.
  by rewrite (py_sorted_filter_set_iter rt1 rt2),
    !(py_sorted_set_iter rt1 rt2).
Qed.

(** *** Group records *)

Lemma res_rel_bind {A B} (R : A → A → Prop) (R' : B → B → Prop)
    (r1 r2 : result A) (f1 f2 : A → result B) :
  res_rel R r1 r2 →
  (∀ a1 a2, R a1 a2 → res_rel R' (f1 a1) (f2 a2)) →
  res_rel R' (r1 ≫= f1) (r2 ≫= f2).
Proof. destruct r1, r2; simpl; try done. intros ? Hf. by apply Hf. Qed.

Lemma index_all_Forall (d : gmap string string) l :
  Forall (λ x, is_Some (d !! x)) l → index_all d l = Ok (omap (d !!.) l).
Proof.
  induction 1 as [|x l [n Hn] _ IH]; simpl; [done|].
  by rewrite Hn, IH.
Qed.

Lemma index_all_not_Forall (d : gmap string string) l :
  ¬ Forall (λ x, is_Some (d !! x)) l → ∃ e, index_all d l = Err e.
Proof.
  induction l as [|x l IH]; simpl; intros Hl.
  - destruct Hl. constructor.
  - destruct (d !! x) as [n|] eqn:Hn; [|by eexists].
    destruct IH as [e ->]; [|by eexists].
    intros Hl'. apply Hl. by constructor.
Qed.

Lemma index_all_perm (d : gmap string string) l1 l2 :
  l1 ≡ₚ l2 → res_rel (≡ₚ) (index_all d l1) (index_all d l2).
Proof.
  intros Hp. destruct (decide (Forall (λ x, is_Some (d !! x)) l1)) as [Hl|Hl].
  - rewrite (index_all_Forall d l1 Hl).
    rewrite Hp in Hl. rewrite (index_all_Forall d l2 Hl). simpl.
    by rewrite Hp.
  - destruct (index_all_not_Forall d l1 Hl) as [e1 ->].
    rewrite Hp in Hl. by destruct (index_all_not_Forall d l2 Hl) as [e2 ->].
Qed.

Lemma index_where_same rt1 rt2 d guard xs :
  res_rel eq (index_where rt1 d guard xs) (index_where rt2 d guard xs).
Proof.
  unfold index_where. eapply res_rel_bind.
  - apply index_all_perm. by rewrite !set_iter_perm.
  - intros ns1 ns2 Hp. simpl. by apply list_to_set_perm_L.
Qed.

Lemma group_model_names_same rt1 rt2 p1 p2 arn :
  sim_proc p1 p2 →
  res_rel eq (group_model_names rt1 p1 arn) (group_model_names rt2 p2 arn).
Proof.
  unfold group_model_names. intros (_&_&_&->&_&_&->&->).
  eapply res_rel_bind; [apply res_rel_refl|intros o ? <-].
  eapply res_rel_bind.
  { destruct o; [|apply res_rel_refl].
    eapply res_rel_bind; [apply index_where_same|intros ? ? <-].
    apply res_rel_refl. }
  intros names ? <-.
  eapply res_rel_bind; [apply res_rel_refl|intros o' ? <-].
  destruct o'; [|apply res_rel_refl].
  eapply res_rel_bind; [apply index_where_same|intros ? ? <-].
  apply res_rel_refl.
Qed.

Lemma sim_get_group_wu rt1 rt2 d st1 st2 :
  same_formats rt1 rt2 → sim_state st1 st2 →
  is_Some (Dict.lookup d "CreationTime") →
  sim_run eq (get_group_wu rt1 d st1) (get_group_wu rt2 d st2).
Proof.
  intros Hf Hs [t Ht]. unfold get_group_wu.
  sim_next. sim_next.
  eapply sim_bind;
    [apply sim_lift; [by apply group_model_names_same|assumption]|
     intros ? ? ? ? <- ?].
  sim_next. sim_next. sim_next. rewrite !(get_default_present _ _ _ _ Ht).
  sim_next. sim_next. sim_next.
  destruct Hf as (? & Hm & ? & Hg).
  match goal with H : sim_proc _ _ |- _ => destruct H as (_ & He & _) end.
  rewrite !(py_str_same rt1 rt2), (custom_properties_same rt1 rt2), Hm, Hg, He
    by done.
  do 5 f_equal. apply py_sorted_perm_eq. by rewrite !set_iter_perm.
Qed.

(** *** The three passes *)

Definition described (d1 d2 : pydict) : Prop :=
  d1 = d2 ∧ is_Some (Dict.lookup d1 "CreationTime").

Lemma sim_get_endpoint_details n st1 st2 :
  sim_state st1 st2 →
  sim_run described (get_endpoint_details n st1) (get_endpoint_details n st2).
Proof.
  intros Hs. unfold get_endpoint_details.
  eapply sim_bind; [by apply sim_get_self|].
  intros p1 p2 s1 s2 (((He & _) & (Hc & _) & _) & _) Hs'.
  apply sim_lift; [|done]. rewrite <-He.
  destruct (describe_endpoint _ n) eqn:Hd; simpl; [|done].
  split; [done|]. by eapply Hc.
Qed.

Lemma sim_get_model_details n st1 st2 :
  sim_state st1 st2 →
  sim_run described (get_model_details n st1) (get_model_details n st2).
Proof.
  intros Hs. unfold get_model_details.
  eapply sim_bind; [by apply sim_get_self|].
  intros p1 p2 s1 s2 (((_ & He & _) & (_ & Hc & _) & _) & _) Hs'.
  apply sim_lift; [|done]. rewrite <-He.
  destruct (describe_model _ n) eqn:Hd; simpl; [|done].
  split; [done|]. by eapply Hc.
Qed.

Lemma sim_get_group_details n st1 st2 :
  sim_state st1 st2 →
  sim_run described (get_group_details n st1) (get_group_details n st2).
Proof.
  intros Hs. unfold get_group_details.
  eapply sim_bind; [by apply sim_get_self|].
  intros p1 p2 s1 s2 (((_ & _ & He) & (_ & _ & Hc) & _) & _) Hs'.
  apply sim_lift; [|done]. rewrite <-He.
  destruct (describe_model_package_group _ n) eqn:Hd; simpl; [|done].
  split; [done|]. by eapply Hc.
Qed.

Lemma sim_endpoint_step rt1 rt2 e a2n st1 st2 :
  same_formats rt1 rt2 → sim_state st1 st2 →
  sim_run eq (endpoint_step rt1 e a2n st1) (endpoint_step rt2 e a2n st2).
Proof.
  intros Hf Hs. unfold endpoint_step. sim_next.
  eapply sim_bind; [by apply sim_get_endpoint_details|].
  intros d ? ? ? [<- Ht] ?. sim_next. sim_next. sim_next.
  eapply sim_bind; [by apply sim_get_endpoint_wu|intros ? ? ? ? <- ?].
  sim_next. sim_next. by sim_next.
Qed.

Lemma sim_endpoint_loop rt1 rt2 es a2n st1 st2 :
  same_formats rt1 rt2 → sim_state st1 st2 →
  sim_run eq (endpoint_loop rt1 es a2n st1) (endpoint_loop rt2 es a2n st2).
Proof.
  intros Hf. revert a2n st1 st2.
  induction es as [|e es IH]; intros a2n st1 st2 Hs; simpl; [by sim_next|].
  eapply sim_bind; [by apply sim_endpoint_step|intros ? ? ? ? <- ?].
  by apply IH.
Qed.

Lemma sim_model_step rt1 rt2 m a2n st1 st2 :
  same_formats rt1 rt2 → sim_state st1 st2 →
  sim_run eq (model_step rt1 m a2n st1) (model_step rt2 m a2n st2).
Proof.
  intros Hf Hs. unfold model_step. sim_next.
  eapply sim_bind; [by apply sim_get_model_details|].
  intros d ? ? ? [<- Ht] ?. sim_next.
  eapply sim_bind; [by apply sim_get_model_wu|intros ? ? ? ? <- ?].
  sim_next. by apply sim_yield.
Qed.

Lemma sim_model_loop rt1 rt2 ms a2n st1 st2 :
  same_formats rt1 rt2 → sim_state st1 st2 →
  sim_run eq (model_loop rt1 ms a2n st1) (model_loop rt2 ms a2n st2).
Proof.
  intros Hf. revert st1 st2.
  induction ms as [|m ms IH]; intros st1 st2 Hs; simpl; [by sim_next|].
  eapply sim_bind; [by apply sim_model_step|intros ? ? ? ? _ ?].
  by apply IH.
Qed.

Lemma sim_group_step rt1 rt2 g st1 st2 :
  same_formats rt1 rt2 → sim_state st1 st2 →
  sim_run eq (group_step rt1 g st1) (group_step rt2 g st2).
Proof.
  intros Hf Hs. unfold group_step. sim_next.
  eapply sim_bind; [by apply sim_get_group_details|].
  intros d ? ? ? [<- Ht] ?. sim_next.
  eapply sim_bind; [by apply sim_get_group_wu|intros ? ? ? ? <- ?].
  sim_next. by apply sim_yield.
Qed.

Lemma sim_group_loop rt1 rt2 gs st1 st2 :
  same_formats rt1 rt2 → sim_state st1 st2 →
  sim_run eq (group_loop rt1 gs st1) (group_loop rt2 gs st2).
Proof.
  intros Hf. revert st1 st2.
  induction gs as [|g gs IH]; intros st1 st2 Hs; simpl; [by sim_next|].
  eapply sim_bind; [by apply sim_group_step|intros ? ? ? ? _ ?].
  by apply IH.
Qed.

(** *** Sorting a listing by a field *)

(** The sort key of a listing entry, when it has one that is a string. *)
Definition str_key (field : string) (x : value) : option string :=
  match value_getitem x field with
  | Ok (VStr s) => Some s
  | _ => None
  end.

Definition sort_key (field : string) (x : value) : string :=
  default "" (str_key field x).

Lemma insert_by_fmap {A B} (g : A → B) (key : B → string) x l :
  insert_by key (g x) (g <$> l) = g <$> insert_by (key ∘ g) x l.
Proof.
  induction l as [|y l IH]; csimpl; [done|].
  case_decide; csimpl; [done|]. by rewrite IH.
Qed.

Lemma sorted_by_fmap {A B} (g : A → B) (key : B → string) l :
  sorted_by key (g <$> l) = g <$> sorted_by (key ∘ g) l.
Proof.
  induction l as [|x l IH]; csimpl; [done|].
  fold (sorted_by key (g <$> l)) (sorted_by (key ∘ g) l).
  by rewrite IH, insert_by_fmap.
Qed.

Lemma sorted_by_zip {A} (key : A → string) (l : list A) :
  (sorted_by fst (zip (key <$> l) l)).*2 = sorted_by key l.
Proof.
  assert (zip (key <$> l) l = (λ x, (key x, x)) <$> l) as ->.
  { induction l as [|x l IH]; csimpl; [done|]. by f_equal. }
  rewrite sorted_by_fmap, <-list_fmap_compose.
  exact (list_fmap_id (sorted_by key l)).
Qed.

Lemma mapM_cons {A B} (f : A → result B) x l :
  mapM f (x :: l) = y ← f x; k ← mapM f l; mret (y :: k).
Proof. reflexivity. Qed.

Lemma mapM_Forall {A B} (f : A → result B) (g : A → B) l :
  Forall (λ x, f x = Ok (g x)) l → mapM f l = Ok (g <$> l).
Proof.
  induction 1 as [|x l Hx _ IH]; [done|].
  by rewrite mapM_cons, Hx, IH.
Qed.

Lemma mapM_Ok_inv {A B} (f : A → result B) l ks :
  mapM f l = Ok ks → Forall2 (λ x k, f x = Ok k) l ks.
Proof.
  revert ks. induction l as [|x l IH]; intros ks H.
  - injection H as <-. constructor.
  - rewrite mapM_cons in H. apply result_bind_inv in H as (k & Hk & H).
    apply result_bind_inv in H as (ks' & Hks & [= <-]).
    constructor; auto.
Qed.

Lemma mapM_as_str (ss : list string) : mapM as_str (VStr <$> ss) = Ok ss.
Proof.
  induction ss as [|s ss IH]; [done|].
  rewrite fmap_cons, mapM_cons, IH. done.
Qed.

Lemma str_key_Some field x s :
  str_key field x = Some s ↔ value_getitem x field = Ok (VStr s).
Proof.
  unfold str_key. destruct (value_getitem x field) as [[]|]; naive_solver.
Qed.

Lemma sorted_by_field_Forall field l :
  Forall (λ x, is_Some (str_key field x)) l →
  sorted_by_field field l = Ok (sorted_by (sort_key field) l).
Proof.
  intros Hl. unfold sorted_by_field.
  rewrite (mapM_Forall _ (λ x, VStr (sort_key field x))).
  2:{ eapply Forall_impl; [exact Hl|]. intros x [s Hs]. simpl.
      unfold sort_key. rewrite Hs. by apply str_key_Some. }
  change (Ok ?a ≫= ?f) with (f a). cbv beta.
  rewrite (list_fmap_compose (sort_key field) VStr), mapM_as_str.
  change (Ok ?a ≫= ?f) with (f a). cbv beta.
  unfold mret, result_ret. by rewrite sorted_by_zip.
Qed.

Lemma sorted_by_field_not_Forall field l :
  ¬ Forall (λ x, is_Some (str_key field x)) l →
  ∃ e, sorted_by_field field l = Err e.
Proof.
  intros Hl. unfold sorted_by_field.
  destruct (mapM (λ x, value_getitem x field) l) as [keys|e] eqn:Hk;
    [|by eexists].
  change (Ok ?a ≫= ?f) with (f a). cbv beta.
  destruct (mapM as_str keys) as [skeys|e] eqn:Hs; [|by eexists].
  destruct Hl. apply mapM_Ok_inv in Hk, Hs.
  revert skeys Hs. induction Hk as [|x k l keys Hx _ IH]; intros skeys Hs;
    [constructor|].
  inversion Hs as [|? s ? skeys' Hk' Hs']; subst.
  constructor; [|by eapply IH].
  exists s. apply str_key_Some. rewrite Hx.
  destruct k; try discriminate Hk'. by injection Hk' as ->.
Qed.

Lemma sorted_by_field_perm field l1 l2 :
  l1 ≡ₚ l2 → key_identifies field l1 →
  res_rel eq (sorted_by_field field l1) (sorted_by_field field l2).
Proof.
  intros Hp Hk.
  destruct (decide (Forall (λ x, is_Some (str_key field x)) l1)) as [Hl|Hl].
  - rewrite (sorted_by_field_Forall field l1 Hl).
    pose proof Hl as Hl2. rewrite Hp in Hl2.
    rewrite (sorted_by_field_Forall field l2 Hl2). simpl.
    apply sorted_by_perm_eq; [done|].
    intros x y Hx Hy Hxy. rewrite Forall_forall in Hl.
    destruct (Hl x Hx) as [sx Hsx], (Hl y Hy) as [sy Hsy].
    unfold sort_key in Hxy. rewrite Hsx, Hsy in Hxy. simpl in Hxy. subst sy.
    apply (Hk x y (VStr sx)); [done..| |]; by apply str_key_Some.
  - destruct (sorted_by_field_not_Forall field l1 Hl) as [e1 ->].
    rewrite Hp in Hl.
    by destruct (sorted_by_field_not_Forall field l2 Hl) as [e2 ->].
Qed.

Lemma get_all_endpoints_listing st :
  get_all_endpoints st =
    (listing (sagemaker_client (self st)) "list_endpoints" "Endpoints", st).
Proof.
  unfold get_all_endpoints, listing. rewrite bind_get_self, bind_lift.
  by destruct (paginate _ _).
Qed.

Lemma get_all_models_listing st :
  get_all_models st =
    (listing (sagemaker_client (self st)) "list_models" "Models", st).
Proof.
  unfold get_all_models, listing. rewrite bind_get_self, bind_lift.
  by destruct (paginate _ _).
Qed.

Lemma get_all_groups_listing st :
  get_all_groups st =
    (listing (sagemaker_client (self st)) "list_model_package_groups"
             "ModelPackageGroupSummaryList", st).
Proof.
  unfold get_all_groups, listing. rewrite bind_get_self, bind_lift.
  by destruct (paginate _ _).
Qed.

Lemma sim_get_all_endpoints st1 st2 :
  sim_state st1 st2 →
  sim_run (λ l1 l2, l1 ≡ₚ l2 ∧ key_identifies "EndpointArn" l1)
          (get_all_endpoints st1) (get_all_endpoints st2).
Proof.
  intros Hs. rewrite !get_all_endpoints_listing. split; [done|].
  destruct Hs as (((_ & _ & He & _) & _) & _). exact He.
Qed.

Lemma sim_get_all_models st1 st2 :
  sim_state st1 st2 →
  sim_run (λ l1 l2, l1 ≡ₚ l2 ∧ key_identifies "ModelArn" l1)
          (get_all_models st1) (get_all_models st2).
Proof.
  intros Hs. rewrite !get_all_models_listing. split; [done|].
  destruct Hs as (((_ & _ & _ & Hm & _) & _) & _). exact Hm.
Qed.

Lemma sim_get_all_groups st1 st2 :
  sim_state st1 st2 →
  sim_run (λ l1 l2, l1 ≡ₚ l2 ∧ key_identifies "ModelPackageGroupName" l1)
          (get_all_groups st1) (get_all_groups st2).
Proof.
  intros Hs. rewrite !get_all_groups_listing. split; [done|].
  destruct Hs as (((_ & _ & _ & _ & Hg) & _) & _). exact Hg.
Qed.

Lemma sim_get_workunits rt1 rt2 st1 st2 :
  same_formats rt1 rt2 → sim_state st1 st2 →
  sim_run eq (get_workunits rt1 st1) (get_workunits rt2 st2).
Proof.
  intros Hf Hs. unfold get_workunits.
  eapply sim_bind; [by apply sim_get_all_endpoints|intros ? ? ? ? [??] ?].
  eapply sim_bind;
    [apply sim_lift; [by apply sorted_by_field_perm|done]|intros ? ? ? ? <- ?].
  eapply sim_bind; [by apply sim_endpoint_loop|intros ? ? ? ? <- ?].
  eapply sim_bind; [by apply sim_get_all_models|intros ? ? ? ? [??] ?].
  eapply sim_bind;
    [apply sim_lift; [by apply sorted_by_field_perm|done]|intros ? ? ? ? <- ?].
  eapply sim_bind; [by apply sim_model_loop|intros ? ? ? ? _ ?].
  eapply sim_bind; [by apply sim_get_all_groups|intros ? ? ? ? [??] ?].
  eapply sim_bind;
    [apply sim_lift; [by apply sorted_by_field_perm|done]|intros ? ? ? ? <- ?].
  by apply sim_group_loop.
Qed.
(** ** The cross-references of the emitted records *)

(** A list in lexicographic order in which nothing occurs twice. *)
Definition ordered_without_duplicates (l : list string) : Prop :=
  StronglySorted String.le l ∧ NoDup l.

(** The cross-reference lists of a record: the job lists are ordered and
    without duplicates; the deployments are built, one for one, from such a
    list of ARNs; the member models are ordered, and built from names of
    which none occurs twice. *)
Definition cross_references_ordered (rt : Runtime) (e : string)
    (wu : MetadataWorkUnit) : Prop :=
  Forall ordered_without_duplicates (wu_trainingJobs wu) ∧
  Forall ordered_without_duplicates (wu_downstreamJobs wu) ∧
  Forall (λ l, ∃ arns, ordered_without_duplicates arns ∧
               l = (λ a, make_ml_model_deployment_urn rt "sagemaker" a e)
                     <$> arns)
         (wu_deployments wu) ∧
  Forall (λ l, StronglySorted String.le l ∧
               ∃ names, NoDup names ∧
                 l ≡ₚ (λ n, make_ml_model_urn rt "sagemaker" n e) <$> names)
         (wu_models wu).

(** What a run is given and never writes: the client, [env], the Lineage
    Index and the two job mappings. *)
Definition same_inputs (p q : ModelProcessor) : Prop :=
  sagemaker_client q = sagemaker_client p ∧
  env q = env p ∧
  lineage q = lineage p ∧
  model_image_to_jobs q = model_image_to_jobs p ∧
  model_name_to_jobs q = model_name_to_jobs p.

Lemma same_inputs_refl p : same_inputs p p.
Proof. by repeat split. Qed.

Lemma same_inputs_trans p q r :
  same_inputs p q → same_inputs q r → same_inputs p r.
Proof.
  unfold same_inputs. intros (?&?&?&?&?) (?&?&?&?&?). repeat split; congruence.
Qed.

(** A call that yields nothing and leaves the inputs alone, whether it
    returns or raises. *)
Definition quiet {A} (m : M A) : Prop :=
  ∀ st, same_inputs (self st) (self (m st).2) ∧ yielded (m st).2 = yielded st.

Lemma quiet_bind {A B} (m : M A) (f : A → M B) :
  quiet m → (∀ a, quiet (f a)) → quiet (m ≫= f).
Proof.
  intros Hm Hf st. rewrite bind_step. specialize (Hm st).
  destruct (m st) as [[a|e] st1]; simpl in *; [|done].
  destruct Hm as [? ?], (Hf a st1) as [? ?].
  split; [by eapply same_inputs_trans|congruence].
Qed.

Lemma quiet_lift {A} (r : result A) : quiet (lift r).
Proof. intros st. split; [apply same_inputs_refl|done]. Qed.

Lemma quiet_ret {A} (a : A) : quiet (mret a).
Proof. intros st. split; [apply same_inputs_refl|done]. Qed.

Lemma quiet_get_self : quiet get_self.
Proof. intros st. split; [apply same_inputs_refl|done]. Qed.

Lemma quiet_datetime_now rt : quiet (datetime_now rt).
Proof. intros st. split; [apply same_inputs_refl|done]. Qed.

Lemma quiet_modify_self f :
  (∀ p, same_inputs p (f p)) → quiet (modify_self f).
Proof. intros Hf st. split; [apply Hf|done]. Qed.

Lemma quiet_let_pair {A B C} (p : A * B) (f : A → B → M C) :
  (∀ a b, quiet (f a b)) → quiet (let '(a, b) := p in f a b).
Proof. intros Hf. by destruct p. Qed.

Create HintDb quiet.

Ltac quiet_step :=
  lazymatch goal with
  | |- quiet (lift _) => apply quiet_lift
  | |- quiet (mret _) => apply quiet_ret
  | |- quiet get_self => apply quiet_get_self
  | |- quiet (datetime_now _) => apply quiet_datetime_now
  | |- quiet (modify_self _) =>
      apply quiet_modify_self; intros []; by repeat split
  | |- quiet (_ ≫= _) => apply quiet_bind; [|intros ?]
  | |- quiet (let '(_, _) := _ in _) => apply quiet_let_pair; intros ? ?
  | |- quiet (match ?x with _ => _ end) => destruct x
  | |- quiet (Report.report_warning _ _) => unfold Report.report_warning
  | |- quiet Report.report_endpoint_scanned =>
      unfold Report.report_endpoint_scanned
  | |- quiet Report.report_model_scanned => unfold Report.report_model_scanned
  | |- quiet Report.report_group_scanned => unfold Report.report_group_scanned
  | |- quiet (Report.report_workunit _) => unfold Report.report_workunit
  | |- _ => solve [auto with quiet nocore]
  end.

Ltac quiet := repeat quiet_step.

Lemma quiet_get_endpoint_status rt n a s : quiet (get_endpoint_status rt n a s).
Proof. unfold get_endpoint_status. quiet. Qed.
#[local] Hint Resolve quiet_get_endpoint_status : quiet.

Lemma quiet_get_endpoint_wu rt d : quiet (get_endpoint_wu rt d).
Proof. unfold get_endpoint_wu. quiet. Qed.

Lemma quiet_endpoints_by_image d image eps :
  quiet (endpoints_by_image d image eps).
Proof. unfold endpoints_by_image. quiet. Qed.
#[local] Hint Resolve quiet_endpoints_by_image : quiet.

Lemma quiet_endpoints_by_uri d uri eps : quiet (endpoints_by_uri d uri eps).
Proof. unfold endpoints_by_uri. quiet. Qed.
#[local] Hint Resolve quiet_endpoints_by_uri : quiet.

Lemma quiet_get_model_wu rt d a2n : quiet (get_model_wu rt d a2n).
Proof. unfold get_model_wu. quiet. Qed.

Lemma quiet_get_group_wu rt d : quiet (get_group_wu rt d).
Proof. unfold get_group_wu. quiet. Qed.

Lemma quiet_get_all_endpoints : quiet get_all_endpoints.
Proof. unfold get_all_endpoints. quiet. Qed.

Lemma quiet_get_all_models : quiet get_all_models.
Proof. unfold get_all_models. quiet. Qed.

Lemma quiet_get_all_groups : quiet get_all_groups.
Proof. unfold get_all_groups. quiet. Qed.

Lemma quiet_get_endpoint_details n : quiet (get_endpoint_details n).
Proof. unfold get_endpoint_details. quiet. Qed.

Lemma quiet_get_model_details n : quiet (get_model_details n).
Proof. unfold get_model_details. quiet. Qed.

Lemma quiet_get_group_details n : quiet (get_group_details n).
Proof. unfold get_group_details. quiet. Qed.
#[local] Hint Resolve quiet_get_endpoint_details quiet_get_model_details
  quiet_get_group_details : quiet.

(** The records yielded so far have their cross-references in order. *)
Definition records_ordered (rt : Runtime) (e : string) (st : State) : Prop :=
  env (self st) = e ∧
  Forall (cross_references_ordered rt e) (yielded st).

(** A call that keeps [records_ordered] whether it returns or raises, and
    whose value, if it returns, satisfies [Q]. *)
Definition keeps {A} (rt : Runtime) (e : string) (m : M A) (Q : A → Prop)
  : Prop :=
  ∀ st, records_ordered rt e st →
    records_ordered rt e (m st).2 ∧ ∀ a, (m st).1 = Ok a → Q a.

Lemma keeps_bind {A B} rt e (m : M A) (f : A → M B) Q Q' :
  keeps rt e m Q → (∀ a, Q a → keeps rt e (f a) Q') →
  keeps rt e (m ≫= f) Q'.
Proof.
  intros Hm Hf st Hst. rewrite bind_step. destruct (Hm st Hst) as [Hst1 Hq].
  destruct (m st) as [[a|err] st1]; simpl in *; [|done].
  by apply Hf; [apply Hq|].
Qed.

Lemma keeps_quiet {A} rt e (m : M A) : quiet m → keeps rt e m (λ _, True).
Proof.
  intros Hm st [He Hy]. destruct (Hm st) as [(_ & He' & _) Hy']. split; [|done].
  split; congruence.
Qed.

Lemma keeps_yield rt e wu :
  cross_references_ordered rt e wu → keeps rt e (yield wu) (λ _, True).
Proof.
  intros Hwu st [He Hy]. split; [|done]. split; [done|]. simpl.
  apply Forall_app. by split; [|constructor].
Qed.

Lemma get_endpoint_wu_lists rt d st wu st' :
  get_endpoint_wu rt d st = (Ok wu, st') →
  wu_trainingJobs wu = [] ∧ wu_downstreamJobs wu = [] ∧
  wu_deployments wu = [] ∧ wu_models wu = [].
Proof.
  intros H. unfold get_endpoint_wu in H. inv_run H.
  by apply ret_inv in H as [-> ->].
Qed.

Lemma get_group_wu_lists rt d st wu st' :
  get_group_wu rt d st = (Ok wu, st') →
  wu_trainingJobs wu = [] ∧ wu_downstreamJobs wu = [] ∧
  wu_deployments wu = [].
Proof.
  intros H. unfold get_group_wu in H. inv_run H.
  by apply ret_inv in H as [-> ->].
Qed.

Lemma keeps_get_endpoint_wu rt e d :
  keeps rt e (get_endpoint_wu rt d) (cross_references_ordered rt e).
Proof.
  intros st Hst. split; [by apply (keeps_quiet rt e _ (quiet_get_endpoint_wu rt d))|].
  intros wu Hwu. destruct (get_endpoint_wu rt d st) as [r st'] eqn:Hrun.
  simpl in Hwu. subst r.
  apply get_endpoint_wu_lists in Hrun as (Ht & Hd & Hp & Hm).
  unfold cross_references_ordered. rewrite Ht, Hd, Hp, Hm.
  by split_and!.
Qed.

Lemma keeps_get_model_wu rt e d a2n :
  keeps rt e (get_model_wu rt d a2n) (cross_references_ordered rt e).
Proof.
  intros st Hst.
  split; [by apply (keeps_quiet rt e _ (quiet_get_model_wu rt d a2n))|].
  intros wu Hwu. destruct (get_model_wu rt d a2n st) as [r st'] eqn:Hrun.
  simpl in Hwu. subst r. destruct Hst as [<- _].
  apply get_model_wu_inv in Hrun
    as (image & uri & urls & tj & dj & name & ms & _ & _ & _ & _ & _ & _ &
        _ & _ & _ & ->).
  unfold cross_references_ordered; simpl. split_and!; repeat constructor.
  - apply py_sorted_sorted.
  - apply py_sorted_NoDup, set_iter_NoDup.
  - apply py_sorted_sorted.
  - apply py_sorted_NoDup, set_iter_NoDup.
  - eexists. split; [|reflexivity]. split; [apply py_sorted_sorted|].
    apply py_sorted_NoDup, NoDup_filter, set_iter_NoDup.
Qed.

Lemma keeps_get_group_wu rt e d :
  keeps rt e (get_group_wu rt d) (cross_references_ordered rt e).
Proof.
  intros st Hst.
  split; [by apply (keeps_quiet rt e _ (quiet_get_group_wu rt d))|].
  intros wu Hwu. destruct (get_group_wu rt d st) as [r st'] eqn:Hrun.
  simpl in Hwu. subst r. destruct Hst as [<- _].
  destruct (get_group_wu_lists _ _ _ _ _ Hrun) as (Ht & Hd & Hp).
  apply get_group_wu_inv in Hrun
    as (arn & names & owners & _ & _ & _ & _ & Hm & _).
  unfold cross_references_ordered. rewrite Ht, Hd, Hp, Hm.
  split_and!; repeat constructor.
  - apply py_sorted_sorted.
  - exists (set_iter rt names). split; [apply set_iter_NoDup|].
    apply py_sorted_perm.
Qed.

Ltac keeps_quiet :=
  eapply keeps_bind; [solve [apply keeps_quiet; quiet]|intros ? _].

Lemma keeps_endpoint_step rt e endpoint a2n :
  keeps rt e (endpoint_step rt endpoint a2n) (λ _, True).
Proof.
  unfold endpoint_step. do 5 keeps_quiet.
  eapply keeps_bind; [apply keeps_get_endpoint_wu|intros wu Hwu].
  keeps_quiet.
  eapply keeps_bind; [by apply keeps_yield|intros ? _].
  apply keeps_quiet. quiet.
Qed.

Lemma keeps_model_step rt e model a2n :
  keeps rt e (model_step rt model a2n) (λ _, True).
Proof.
  unfold model_step. do 3 keeps_quiet.
  eapply keeps_bind; [apply keeps_get_model_wu|intros wu Hwu].
  keeps_quiet. by apply keeps_yield.
Qed.

Lemma keeps_group_step rt e group :
  keeps rt e (group_step rt group) (λ _, True).
Proof.
  unfold group_step. do 3 keeps_quiet.
  eapply keeps_bind; [apply keeps_get_group_wu|intros wu Hwu].
  keeps_quiet. by apply keeps_yield.
Qed.

Lemma keeps_endpoint_loop rt e endpoints a2n :
  keeps rt e (endpoint_loop rt endpoints a2n) (λ _, True).
Proof.
  revert a2n. induction endpoints as [|x l IH]; intros a2n; simpl.
  - apply keeps_quiet. quiet.
  - eapply keeps_bind; [apply keeps_endpoint_step|intros ? _]. apply IH.
Qed.

Lemma keeps_model_loop rt e models a2n :
  keeps rt e (model_loop rt models a2n) (λ _, True).
Proof.
  induction models as [|x l IH]; simpl.
  - apply keeps_quiet. quiet.
  - eapply keeps_bind; [apply keeps_model_step|intros ? _]. apply IH.
Qed.

Lemma keeps_group_loop rt e groups :
  keeps rt e (group_loop rt groups) (λ _, True).
Proof.
  induction groups as [|x l IH]; simpl.
  - apply keeps_quiet. quiet.
  - eapply keeps_bind; [apply keeps_group_step|intros ? _]. apply IH.
Qed.

Lemma keeps_get_workunits rt e : keeps rt e (get_workunits rt) (λ _, True).
Proof.
  unfold get_workunits.
  eapply keeps_bind;
    [apply keeps_quiet, quiet_get_all_endpoints|intros ? _].
  keeps_quiet.
  eapply keeps_bind; [apply keeps_endpoint_loop|intros ? _].
  eapply keeps_bind; [apply keeps_quiet, quiet_get_all_models|intros ? _].
  keeps_quiet.
  eapply keeps_bind; [apply keeps_model_loop|intros ? _].
  eapply keeps_bind; [apply keeps_quiet, quiet_get_all_groups|intros ? _].
  keeps_quiet. apply keeps_group_loop.
Qed.

(** ** The order of the emitted records *)

Lemma quiet_run {A} (m : M A) st r st' :
  quiet m → m st = (r, st') →
  same_inputs (self st) (self st') ∧ yielded st' = yielded st.
Proof. intros Hq H. specialize (Hq st). by rewrite H in Hq. Qed.

(** The record [wu] is the one of the listing entry [entry]: the detail
    payload that [describe] returns for the entry's [field] carries, under
    [field], the identifier of [wu]. *)
Definition entry_record (rt : Runtime) (describe : value → result pydict)
    (field : string) (entry : value) (wu : MetadataWorkUnit) : Prop :=
  ∃ name d v,
    value_getitem entry field = Ok name ∧
    describe name = Ok d ∧
    Dict.lookup d field = Some v ∧
    id wu = py_str rt v.

(** A listing in ascending order of the strings under [key]. *)
Definition in_key_order (key : string) (l : list value) : Prop :=
  Forall (λ x, is_Some (str_key key x)) l ∧
  StronglySorted (λ x y, String.le (sort_key key x) (sort_key key y)) l.

Lemma sorted_by_field_in_key_order field l l' :
  sorted_by_field field l = Ok l' → l' ≡ₚ l ∧ in_key_order field l'.
Proof.
  intros H.
  destruct (decide (Forall (λ x, is_Some (str_key field x)) l)) as [Hl|Hl].
  - rewrite (sorted_by_field_Forall field l Hl) in H. injection H as <-.
    split; [apply sorted_by_perm|]. split.
    + by rewrite sorted_by_perm.
    + apply (sorted_by_sorted (sort_key field)).
  - destruct (sorted_by_field_not_Forall field l Hl) as [e He]. congruence.
Qed.

Lemma get_endpoint_wu_id rt d st wu st' :
  get_endpoint_wu rt d st = (Ok wu, st') →
  ∃ v, Dict.lookup d "EndpointName" = Some v ∧ id wu = py_str rt v.
Proof.
  intros H. unfold get_endpoint_wu in H. inv_run H.
  apply ret_inv in H as [-> ->]. simpl.
  match goal with
  | H : Dict.getitem d "EndpointName" = Ok ?a |- ∃ _, _ ∧ py_str rt ?a = _ =>
      apply getitem_inv in H; eauto
  end.
Qed.

Lemma get_model_wu_id rt d a2n st wu st' :
  get_model_wu rt d a2n st = (Ok wu, st') →
  ∃ v, Dict.lookup d "ModelName" = Some v ∧ id wu = py_str rt v.
Proof.
  intros H. apply get_model_wu_inv in H
    as (image & uri & urls & tj & dj & name & ms & _ & _ & _ & _ & Hn & _ &
        _ & _ & _ & ->).
  eauto.
Qed.

Lemma get_group_wu_id rt d st wu st' :
  get_group_wu rt d st = (Ok wu, st') →
  ∃ v, Dict.lookup d "ModelPackageGroupName" = Some v ∧ id wu = py_str rt v.
Proof.
  intros H. unfold get_group_wu in H. inv_run H.
  apply ret_inv in H as [-> ->]. simpl.
  match goal with
  | H : Dict.getitem d "ModelPackageGroupName" = Ok ?a
    |- ∃ _, _ ∧ py_str rt ?a = _ => apply getitem_inv in H; eauto
  end.
Qed.

Lemma get_endpoint_details_inv n st d st' :
  get_endpoint_details n st = (Ok d, st') →
  describe_endpoint (sagemaker_client (self st)) n = Ok d ∧ st' = st.
Proof.
  unfold get_endpoint_details. rewrite bind_get_self. apply lift_inv.
Qed.

Lemma get_model_details_inv n st d st' :
  get_model_details n st = (Ok d, st') →
  describe_model (sagemaker_client (self st)) n = Ok d ∧ st' = st.
Proof.
  unfold get_model_details. rewrite bind_get_self. apply lift_inv.
Qed.

Lemma get_group_details_inv n st d st' :
  get_group_details n st = (Ok d, st') →
  describe_model_package_group (sagemaker_client (self st)) n = Ok d ∧
  st' = st.
Proof.
  unfold get_group_details. rewrite bind_get_self. apply lift_inv.
Qed.

(** The facts about the states of a successful run of a step, from the
    calls that are [quiet]. *)
Ltac quiet_facts :=
  repeat match goal with
  | H : get_endpoint_details _ _ = (Ok _, _) |- _ =>
      apply get_endpoint_details_inv in H as [H ->]
  | H : get_model_details _ _ = (Ok _, _) |- _ =>
      apply get_model_details_inv in H as [H ->]
  | H : get_group_details _ _ = (Ok _, _) |- _ =>
      apply get_group_details_inv in H as [H ->]
  | H : Report.report_endpoint_scanned _ = (_, _) |- _ =>
      apply (quiet_run _ _ _ _ ltac:(quiet)) in H as [? ?]
  | H : Report.report_model_scanned _ = (_, _) |- _ =>
      apply (quiet_run _ _ _ _ ltac:(quiet)) in H as [? ?]
  | H : Report.report_group_scanned _ = (_, _) |- _ =>
      apply (quiet_run _ _ _ _ ltac:(quiet)) in H as [? ?]
  | H : Report.report_workunit _ _ = (_, _) |- _ =>
      apply (quiet_run _ _ _ _ ltac:(quiet)) in H as [? ?]
  | H : yield _ _ = (Ok _, _) |- _ => injection H as <-
  end.

Ltac emits_done :=
  subst; unfold same_inputs in *; simpl in *; destruct_and?;
  split; [repeat split; congruence|];
  eexists; split; [f_equal; congruence|];
  eexists _, _, _; eauto.

Lemma endpoint_step_emits rt x a2n st a2n' st' :
  endpoint_step rt x a2n st = (Ok a2n', st') →
  same_inputs (self st) (self st') ∧
  ∃ wu, yielded st' = yielded st ++ [wu] ∧
        entry_record rt (describe_endpoint (sagemaker_client (self st)))
                     "EndpointName" x wu.
Proof.
  intros H. unfold endpoint_step in H. inv_run H.
  apply ret_inv in H as [-> ->]. quiet_facts.
  match goal with
  | H : get_endpoint_wu _ _ _ = _ |- _ =>
      pose proof (get_endpoint_wu_id _ _ _ _ _ H) as (v & Hv & Hid);
      apply (quiet_run _ _ _ _ (quiet_get_endpoint_wu _ _)) in H as [? ?]
  end.
  emits_done.
Qed.

Lemma model_step_emits rt x a2n st u st' :
  model_step rt x a2n st = (Ok u, st') →
  same_inputs (self st) (self st') ∧
  ∃ wu, yielded st' = yielded st ++ [wu] ∧
        entry_record rt (describe_model (sagemaker_client (self st)))
                     "ModelName" x wu.
Proof.
  intros H. unfold model_step in H. inv_run H. quiet_facts.
  match goal with
  | H : get_model_wu _ _ _ _ = _ |- _ =>
      pose proof (get_model_wu_id _ _ _ _ _ _ H) as (v & Hv & Hid);
      apply (quiet_run _ _ _ _ (quiet_get_model_wu _ _ _)) in H as [? ?]
  end.
  emits_done.
Qed.

Lemma group_step_emits rt x st u st' :
  group_step rt x st = (Ok u, st') →
  same_inputs (self st) (self st') ∧
  ∃ wu, yielded st' = yielded st ++ [wu] ∧
        entry_record rt
          (describe_model_package_group (sagemaker_client (self st)))
          "ModelPackageGroupName" x wu.
Proof.
  intros H. unfold group_step in H. inv_run H. quiet_facts.
  match goal with
  | H : get_group_wu _ _ _ = _ |- _ =>
      pose proof (get_group_wu_id _ _ _ _ _ H) as (v & Hv & Hid);
      apply (quiet_run _ _ _ _ (quiet_get_group_wu _ _)) in H as [? ?]
  end.
  emits_done.
Qed.

Lemma endpoint_loop_emits rt c xs a2n st a2n' st' :
  sagemaker_client (self st) = c →
  endpoint_loop rt xs a2n st = (Ok a2n', st') →
  same_inputs (self st) (self st') ∧
  ∃ wus, yielded st' = yielded st ++ wus ∧
         Forall2 (entry_record rt (describe_endpoint c) "EndpointName") xs wus.
Proof.
  revert a2n st. induction xs as [|x xs IH]; intros a2n st Hc H; simpl in H.
  - apply ret_inv in H as [-> ->]. split; [apply same_inputs_refl|].
    exists []. by rewrite app_nil_r.
  - apply bind_inv in H as (a & st1 & Hx & H).
    apply endpoint_step_emits in Hx as (Hi & wu & Hy & Hwu).
    apply IH in H as (Hi' & wus & Hy' & Hwus); [|destruct Hi; congruence].
    split; [by eapply same_inputs_trans|].
    exists (wu :: wus). split; [by rewrite Hy', Hy, <-app_assoc|].
    constructor; [by rewrite <-Hc|done].
Qed.

Lemma model_loop_emits rt c xs a2n st u st' :
  sagemaker_client (self st) = c →
  model_loop rt xs a2n st = (Ok u, st') →
  same_inputs (self st) (self st') ∧
  ∃ wus, yielded st' = yielded st ++ wus ∧
         Forall2 (entry_record rt (describe_model c) "ModelName") xs wus.
Proof.
  revert st. induction xs as [|x xs IH]; intros st Hc H; simpl in H.
  - apply ret_inv in H as [-> ->]. split; [apply same_inputs_refl|].
    exists []. by rewrite app_nil_r.
  - apply bind_inv in H as (a & st1 & Hx & H).
    apply model_step_emits in Hx as (Hi & wu & Hy & Hwu).
    apply IH in H as (Hi' & wus & Hy' & Hwus); [|destruct Hi; congruence].
    split; [by eapply same_inputs_trans|].
    exists (wu :: wus). split; [by rewrite Hy', Hy, <-app_assoc|].
    constructor; [by rewrite <-Hc|done].
Qed.

Lemma group_loop_emits rt c xs st u st' :
  sagemaker_client (self st) = c →
  group_loop rt xs st = (Ok u, st') →
  same_inputs (self st) (self st') ∧
  ∃ wus, yielded st' = yielded st ++ wus ∧
         Forall2 (entry_record rt (describe_model_package_group c)
                               "ModelPackageGroupName") xs wus.
Proof.
  revert st. induction xs as [|x xs IH]; intros st Hc H; simpl in H.
  - apply ret_inv in H as [-> ->]. split; [apply same_inputs_refl|].
    exists []. by rewrite app_nil_r.
  - apply bind_inv in H as (a & st1 & Hx & H).
    apply group_step_emits in Hx as (Hi & wu & Hy & Hwu).
    apply IH in H as (Hi' & wus & Hy' & Hwus); [|destruct Hi; congruence].
    split; [by eapply same_inputs_trans|].
    exists (wu :: wus). split; [by rewrite Hy', Hy, <-app_assoc|].
    constructor; [by rewrite <-Hc|done].
Qed.

(** The entries that a client lists for one entity type, in ascending order
    of their sort key. *)
Definition sorted_listing (c : Client) (op field key : string)
    (l : list value) : Prop :=
  (∃ l0, listing c op field = Ok l0 ∧ l ≡ₚ l0) ∧ in_key_order key l.

(** The records of a scan: one for every endpoint in ascending order of
    [EndpointArn], then one for every model in ascending order of
    [ModelArn], then one for every group in ascending order of
    [ModelPackageGroupName]. *)
Definition emitted_in_key_order (rt : Runtime) (c : Client)
    (wus : list MetadataWorkUnit) : Prop :=
  ∃ es ms gs wes wms wgs,
    sorted_listing c "list_endpoints" "Endpoints" "EndpointArn" es ∧
    sorted_listing c "list_models" "Models" "ModelArn" ms ∧
    sorted_listing c "list_model_package_groups"
                   "ModelPackageGroupSummaryList" "ModelPackageGroupName" gs ∧
    wus = wes ++ wms ++ wgs ∧
    Forall2 (entry_record rt (describe_endpoint c) "EndpointName") es wes ∧
    Forall2 (entry_record rt (describe_model c) "ModelName") ms wms ∧
    Forall2 (entry_record rt (describe_model_package_group c)
                          "ModelPackageGroupName") gs wgs.

Lemma sorted_listing_intro c op field key l0 l :
  listing c op field = Ok l0 → sorted_by_field key l0 = Ok l →
  sorted_listing c op field key l.
Proof.
  intros Hl Hs. apply sorted_by_field_in_key_order in Hs as [Hp Hk].
  split; [eauto|done].
Qed.

Lemma get_workunits_emits rt st u st' :
  get_workunits rt st = (Ok u, st') →
  same_inputs (self st) (self st') ∧
  ∃ wus, yielded st' = yielded st ++ wus ∧
         emitted_in_key_order rt (sagemaker_client (self st)) wus.
Proof.
  intros H. unfold get_workunits in H.
  apply bind_inv in H as (l_e & s & He & H).
  rewrite get_all_endpoints_listing in He. injection He as He <-.
  apply bind_inv in H as (es & s & Hes & H). apply lift_inv in Hes as [Hes ->].
  apply bind_inv in H as (a2n & st1 & Hle & H).
  apply (endpoint_loop_emits rt _ _ _ _ _ _ eq_refl) in Hle
    as (Hi1 & wes & Hy1 & Hwes).
  apply bind_inv in H as (l_m & s & Hm & H).
  rewrite get_all_models_listing in Hm. injection Hm as Hm <-.
  apply bind_inv in H as (ms & s & Hms & H). apply lift_inv in Hms as [Hms ->].
  apply bind_inv in H as (? & st2 & Hlm & H).
  apply (model_loop_emits rt _ _ _ _ _ _ eq_refl) in Hlm
    as (Hi2 & wms & Hy2 & Hwms).
  apply bind_inv in H as (l_g & s & Hg & H).
  rewrite get_all_groups_listing in Hg. injection Hg as Hg <-.
  apply bind_inv in H as (gs & s & Hgs & H). apply lift_inv in Hgs as [Hgs ->].
  apply (group_loop_emits rt _ _ _ _ _ eq_refl) in H
    as (Hi3 & wgs & Hy3 & Hwgs).
  assert (sagemaker_client (self st1) = sagemaker_client (self st)) as Hc1
    by apply Hi1.
  assert (sagemaker_client (self st2) = sagemaker_client (self st)) as Hc2
    by (destruct Hi2; congruence).
  rewrite Hc1 in *. rewrite Hc2 in *.
  split; [eauto using same_inputs_trans|].
  exists (wes ++ wms ++ wgs).
  split; [by rewrite Hy3, Hy2, Hy1, <-!app_assoc|].
  exists es, ms, gs, wes, wms, wgs.
  split_and!; eauto using sorted_listing_intro.
Qed.

(** ** Two scans of one account *)

(** C5, amended. Two scans of the same API responses, in which every
    described entity carries a creation time and no two entries of a listing
    share their sort key, yield the same records in the same order, whatever the
    order of the listings, the iteration order of sets and the clock; both
    return or both raise.  Every cross-reference list of a yielded record is
    in lexicographic order without duplicates, and a scan that returns has
    yielded the endpoint records in ascending order of [EndpointArn], then
    the model records in ascending order of [ModelArn], then the group
    records in ascending order of [ModelPackageGroupName]. *)
Theorem scan_output_is_deterministic rt1 rt2 st1 st2 :
  same_formats rt1 rt2 → sim_state st1 st2 → yielded st1 = [] →
  yielded (get_workunits rt1 st1).2 = yielded (get_workunits rt2 st2).2 ∧
  is_ok (get_workunits rt1 st1).1 = is_ok (get_workunits rt2 st2).1 ∧
  Forall (cross_references_ordered rt1 (env (self st1)))
         (yielded (get_workunits rt1 st1).2) ∧
  (is_ok (get_workunits rt1 st1).1 →
   emitted_in_key_order rt1 (sagemaker_client (self st1))
                        (yielded (get_workunits rt1 st1).2)).
Proof.
  intros Hf Hs Hy.
  destruct (sim_get_workunits rt1 rt2 st1 st2 Hf Hs) as [(_ & _ & Hyield) Hr].
  split; [done|]. split.
  { destruct (get_workunits rt1 st1).1, (get_workunits rt2 st2).1; done. }
  split.
  - apply (keeps_get_workunits rt1 (env (self st1)) st1).
    split; [done|]. rewrite Hy. constructor.
  - destruct (get_workunits rt1 st1) as [[u|e] st'] eqn:Hrun; [|done].
    intros _. apply get_workunits_emits in Hrun as (_ & wus & Hwus & Ho).
    simpl. by rewrite Hwus, Hy.
Qed.

Lemma fixture_formats : same_formats rt0 rt1.
Proof. by repeat split. Qed.

Lemma fixture_describes table n d :
  Forall (λ kd, is_Some (Dict.lookup kd.2 "CreationTime")) table →
  Fixture.describe table n = Ok d → is_Some (Dict.lookup d "CreationTime").
Proof.
  intros Ht. destruct n as [|s| | | |]; try discriminate. simpl.
  induction Ht as [|[k d'] table Hd _ IH]; [discriminate|]. simpl.
  destruct (String.eqb s k); [|done]. by intros [= <-].
Qed.

Lemma fixture_key_identifies key (x y : value) kx ky :
  value_getitem x key = Ok kx → value_getitem y key = Ok ky → kx ≠ ky →
  key_identifies key [x; y].
Proof.
  intros Hx Hy Hne x' y' k Hx' Hy' Hkx Hky.
  apply elem_of_cons in Hx' as [->|Hx'], Hy' as [->|Hy']; [done|..].
  - apply list_elem_of_singleton in Hy' as ->. congruence.
  - apply list_elem_of_singleton in Hx' as ->. congruence.
  - apply list_elem_of_singleton in Hx' as ->.
    by apply list_elem_of_singleton in Hy' as ->.
Qed.

Lemma fixture_key_identifies_one key (x : value) : key_identifies key [x].
Proof.
  intros x' y' k Hx' Hy' _ _.
  apply list_elem_of_singleton in Hx' as ->.
  by apply list_elem_of_singleton in Hy' as ->.
Qed.

(** The two clients of [Fixture] give the same API responses; they list
    the endpoints and the models in opposite orders. *)
Lemma fixture_states : sim_state (Fixture.start false) (Fixture.start true).
Proof.
  split; [|done]. split; [|by repeat split].
  split; [by repeat split|]. split.
  { split_and!; intros n d; apply fixture_describes;
      repeat constructor; vm_compute; eauto. }
  split_and!.
  - split; [apply perm_swap|].
    eapply fixture_key_identifies; [reflexivity..|]. by intros [=].
  - split; [apply perm_swap|].
    eapply fixture_key_identifies; [reflexivity..|]. by intros [=].
  - split; [done|]. apply fixture_key_identifies_one.
Qed.

Lemma scan_output_is_deterministic_witness :
  yielded (get_workunits rt0 (Fixture.start false)).2 =
    yielded (get_workunits rt1 (Fixture.start true)).2 ∧
  is_ok (get_workunits rt0 (Fixture.start false)).1 =
    is_ok (get_workunits rt1 (Fixture.start true)).1 ∧
  Forall (cross_references_ordered rt0 (env (self (Fixture.start false))))
         (yielded (get_workunits rt0 (Fixture.start false)).2) ∧
  (is_ok (get_workunits rt0 (Fixture.start false)).1 →
   emitted_in_key_order rt0 (sagemaker_client (self (Fixture.start false)))
                        (yielded (get_workunits rt0 (Fixture.start false)).2)).
Proof.
  apply (scan_output_is_deterministic rt0 rt1
           (Fixture.start false) (Fixture.start true)).
  - exact fixture_formats.
  - exact fixture_states.
  - reflexivity.
Defined.

(** C5, as stated, fails: the two clients of [Tied] give the same API
    responses, every entity with its creation time, and list the same two
    endpoints in opposite orders.  The endpoints have the same
    [EndpointArn], the sort keeps each listing in its order, and the two
    scans, which both return, yield the two endpoint records in opposite
    orders. *)
Lemma tied_sort_keys_keep_the_listing_order :
  let c1 := sagemaker_client (self (Tied.start false)) in
  let c2 := sagemaker_client (self (Tied.start true)) in
  let run1 := get_workunits rt0 (Tied.start false) in
  let run2 := get_workunits rt0 (Tied.start true) in
  same_describes c1 c2 ∧ carries_creation_time c1 ∧
  res_rel (≡ₚ) (listing c1 "list_endpoints" "Endpoints")
               (listing c2 "list_endpoints" "Endpoints") ∧
  res_rel (≡ₚ) (listing c1 "list_models" "Models")
               (listing c2 "list_models" "Models") ∧
  res_rel (≡ₚ) (listing c1 "list_model_package_groups"
                        "ModelPackageGroupSummaryList")
               (listing c2 "list_model_package_groups"
                        "ModelPackageGroupSummaryList") ∧
  run1.1 = Ok tt ∧ run2.1 = Ok tt ∧
  id <$> yielded run1.2 = ["ep-a"; "ep-b"] ∧
  id <$> yielded run2.2 = ["ep-b"; "ep-a"] ∧
  yielded run1.2 ≠ yielded run2.2.
Proof.
  intros c1 c2 run1 run2.
  assert (id <$> yielded run1.2 = ["ep-a"; "ep-b"]) as H1
    by (vm_compute; reflexivity).
  assert (id <$> yielded run2.2 = ["ep-b"; "ep-a"]) as H2
    by (vm_compute; reflexivity).
  split; [by repeat split|]. split.
  { split_and!; intros n d; apply fixture_describes;
      repeat constructor; vm_compute; eauto. }
  split; [vm_compute; apply perm_swap|].
  split; [vm_compute; constructor|]. split; [vm_compute; constructor|].
  split; [vm_compute; reflexivity|]. split; [vm_compute; reflexivity|].
  split; [exact H1|]. split; [exact H2|].
  intros Heq. rewrite Heq, H2 in H1. discriminate H1.
Qed.

(** ** The side tables after the model pass *)

(** The value under [field] of the primary container of a model detail. *)
Definition primary_field (field : string) (d : pydict) : result value :=
  value_get (Dict.get_default d "PrimaryContainer" (VDict [])) field.











(** * Further properties of the three passes *)

(** ** Listings *)

(** The entries that the pages of a listing carry under [field]. *)
Definition page_entries (field : string) (pages : list value)
    (ls : list (list value)) : Prop :=
  Forall2 (λ page l, value_getitem page field = Ok (VList l)) pages ls.

Lemma extend_pages_entries field pages ls acc :
  page_entries field pages ls →
  extend_pages field pages acc = Ok (acc ++ concat ls).
Proof.
  intros H. revert acc. induction H as [|page l pages ls Hp _ IH]; intros acc.
  - by rewrite app_nil_r.
  - simpl. rewrite Hp. simpl. by rewrite IH, app_assoc.
Qed.

Lemma extend_pages_missing field good d rest ls acc :
  page_entries field good ls → Dict.lookup d field = None →
  extend_pages field (good ++ VDict d :: rest) acc = Err (KeyError field).
Proof.
  intros H Hd. revert acc. induction H as [|page l pages ls Hp _ IH]; intros acc.
  - simpl. unfold Dict.getitem. by rewrite Hd.
  - simpl. rewrite Hp. simpl. by rewrite IH.
Qed.

(** X1. Each of the three listings is the concatenation, in the order of
    the pages, of the entries that the pages of the paginator carry; the
    call leaves the state of the run as it was. *)
Theorem get_all_concatenates_pages st pages ls :
  (paginate (sagemaker_client (self st)) "list_endpoints" = Ok pages →
   page_entries "Endpoints" pages ls →
   get_all_endpoints st = (Ok (concat ls), st)) ∧
  (paginate (sagemaker_client (self st)) "list_models" = Ok pages →
   page_entries "Models" pages ls →
   get_all_models st = (Ok (concat ls), st)) ∧
  (paginate (sagemaker_client (self st)) "list_model_package_groups"
     = Ok pages →
   page_entries "ModelPackageGroupSummaryList" pages ls →
   get_all_groups st = (Ok (concat ls), st)).
Proof.
  split_and!; intros Hp Hl.
  - unfold get_all_endpoints. rewrite bind_get_self, bind_lift, Hp.
    unfold lift. by rewrite (extend_pages_entries _ _ ls).
  - unfold get_all_models. rewrite bind_get_self, bind_lift, Hp.
    unfold lift. by rewrite (extend_pages_entries _ _ ls).
  - unfold get_all_groups. rewrite bind_get_self, bind_lift, Hp.
    unfold lift. by rewrite (extend_pages_entries _ _ ls).
Qed.

Lemma get_all_concatenates_pages_witness :
  get_all_models (Fixture.start true)
    = (Ok [Fixture.model_2; Fixture.model_1], Fixture.start true).
Proof.
  apply (proj1 (proj2 (get_all_concatenates_pages (Fixture.start true)
           [VDict [("Models", VList [Fixture.model_2])];
            VDict [("Models", VList [Fixture.model_1])]]
           [[Fixture.model_2]; [Fixture.model_1]]))).
  - reflexivity.
  - repeat constructor.
Defined.

(** X2. A page that lacks the key of its listing makes the listing raise
    [KeyError] on that key, whatever the pages before it carried; the state
    of the run is as it was. *)
Theorem get_all_raises_on_page_without_key st good d rest ls :
  (paginate (sagemaker_client (self st)) "list_endpoints"
     = Ok (good ++ VDict d :: rest) →
   page_entries "Endpoints" good ls → Dict.lookup d "Endpoints" = None →
   get_all_endpoints st = (Err (KeyError "Endpoints"), st)) ∧
  (paginate (sagemaker_client (self st)) "list_models"
     = Ok (good ++ VDict d :: rest) →
   page_entries "Models" good ls → Dict.lookup d "Models" = None →
   get_all_models st = (Err (KeyError "Models"), st)) ∧
  (paginate (sagemaker_client (self st)) "list_model_package_groups"
     = Ok (good ++ VDict d :: rest) →
   page_entries "ModelPackageGroupSummaryList" good ls →
   Dict.lookup d "ModelPackageGroupSummaryList" = None →
   get_all_groups st
     = (Err (KeyError "ModelPackageGroupSummaryList"), st)).
Proof.
  split_and!; intros Hp Hl Hd.
  - unfold get_all_endpoints. rewrite bind_get_self, bind_lift, Hp.
    unfold lift. by rewrite (extend_pages_missing _ _ _ _ ls).
  - unfold get_all_models. rewrite bind_get_self, bind_lift, Hp.
    unfold lift. by rewrite (extend_pages_missing _ _ _ _ ls).
  - unfold get_all_groups. rewrite bind_get_self, bind_lift, Hp.
    unfold lift. by rewrite (extend_pages_missing _ _ _ _ ls).
Qed.

Lemma get_all_raises_on_page_without_key_witness :
  let st := Faulty.start
              [VDict [("Models", VList [Fixture.model_1])];
               VDict [("NextToken", VStr "t")];
               VDict [("Models", VList [Fixture.model_2])]] [] in
  get_all_models st = (Err (KeyError "Models"), st).
Proof.
  intros st.
  apply (proj1 (proj2 (get_all_raises_on_page_without_key st
           [VDict [("Models", VList [Fixture.model_1])]]
           [("NextToken", VStr "t")]
           [VDict [("Models", VList [Fixture.model_2])]]
           [[Fixture.model_1]]))).
  - reflexivity.
  - repeat constructor.
  - reflexivity.
Defined.

(** ** Sorting a listing *)

Section stable_sort.
Context {A : Type} (key : A → string).

Lemma insert_by_filter_key k x l :
  filter (λ y, key y = k) (insert_by key x l) =
    filter (λ y, key y = k) (x :: l).
Proof.
  induction l as [|y l IH]; [done|]. simpl. case_decide as Hle; [done|].
  rewrite filter_cons, IH, !filter_cons.
  destruct (decide (key y = k)) as [Hy|Hy], (decide (key x = k)) as [Hx|Hx];
    try done.
  destruct Hle. by rewrite Hx, Hy.
Qed.

Lemma sorted_by_filter_key k l :
  filter (λ y, key y = k) (sorted_by key l) = filter (λ y, key y = k) l.
Proof.
  induction l as [|x l IH]; [done|]. simpl.
  fold (sorted_by key l).
  by rewrite insert_by_filter_key, !filter_cons, IH.
Qed.
End stable_sort.

(** X3. Sorting a listing by a field returns the entries of the listing,
    each as often as it was listed, in ascending order of the strings under
    that field; entries with the same string keep the order in which they
    were listed. *)
Theorem sorted_by_field_is_stable field l l' :
  sorted_by_field field l = Ok l' →
  l' ≡ₚ l ∧ in_key_order field l' ∧
  ∀ k, filter (λ x, sort_key field x = k) l' =
       filter (λ x, sort_key field x = k) l.
Proof.
  intros H. destruct (sorted_by_field_in_key_order _ _ _ H) as [Hp Hk].
  split; [done|]. split; [done|]. intros k.
  destruct (decide (Forall (λ x, is_Some (str_key field x)) l)) as [Hl|Hl].
  - rewrite (sorted_by_field_Forall field l Hl) in H. injection H as <-.
    apply sorted_by_filter_key.
  - destruct (sorted_by_field_not_Forall field l Hl) as [e He]. congruence.
Qed.

Lemma sorted_by_field_is_stable_witness :
  let x k n := VDict [("ModelArn", VStr k); ("ModelName", VStr n)] in
  let l := [x "b" "M1"; x "a" "M2"; x "b" "M3"; x "a" "M4"] in
  let l' := [x "a" "M2"; x "a" "M4"; x "b" "M1"; x "b" "M3"] in
  l' ≡ₚ l ∧ in_key_order "ModelArn" l' ∧
  ∀ k, filter (λ x, sort_key "ModelArn" x = k) l' =
       filter (λ x, sort_key "ModelArn" x = k) l.
Proof.
  intros x l l'. apply (sorted_by_field_is_stable "ModelArn" l l').
  vm_compute; reflexivity.
Defined.

(** X4. When every entry of the endpoint listing is a dictionary and one of
    them has no [EndpointArn], the scan raises [KeyError] on that key while
    sorting the listing: no record is yielded, no endpoint is described and
    the report is untouched. *)
Theorem scan_aborts_on_endpoint_without_arn rt st l :
  get_all_endpoints st = (Ok l, st) →
  Forall (λ x, ∃ d, x = VDict d) l →
  Exists (λ x, value_getitem x "EndpointArn" = Err (KeyError "EndpointArn")) l →
  get_workunits rt st = (Err (KeyError "EndpointArn"), st).
Proof.
  intros Hl Hd Hx. unfold get_workunits. rewrite bind_step, Hl, bind_lift.
  assert (mapM (λ x, value_getitem x "EndpointArn") l
          = Err (KeyError "EndpointArn")) as Hm.
  { clear Hl. induction Hd as [|x l' [d ->] _ IH]; [by inversion Hx|].
    rewrite mapM_cons. simpl. unfold Dict.getitem.
    destruct (Dict.lookup d "EndpointArn") as [v|] eqn:Hv; [|done]. simpl.
    rewrite IH; [done|]. inversion Hx as [? ? H|]; subst; [|done].
    simpl in H. unfold Dict.getitem in H. by rewrite Hv in H. }
  unfold sorted_by_field. by rewrite Hm.
Qed.

Lemma scan_aborts_on_endpoint_without_arn_witness :
  let st := Faulty.start
              [VDict [("Endpoints",
                       VList [Fixture.endpoint_a;
                              VDict [("EndpointName", VStr "ep-b")]])]]
              [("ep-a", Fixture.endpoint_a_details)] in
  get_workunits rt0 st = (Err (KeyError "EndpointArn"), st).
Proof.
  intros st.
  apply (scan_aborts_on_endpoint_without_arn rt0 st
           [Fixture.endpoint_a; VDict [("EndpointName", VStr "ep-b")]]).
  - reflexivity.
  - repeat constructor; eexists; reflexivity.
  - apply Exists_cons_tl, Exists_cons_hd. reflexivity.
Defined.

(** ** The creation time of a record *)

(** The [createdAt] or [date] of the properties of a record. *)
Definition wu_timestamp (wu : MetadataWorkUnit) : list Z :=
  omap (λ a, match a with
             | MLModelDeploymentPropertiesClass t _ _
             | MLModelPropertiesClass t _ _ _ _
             | MLModelGroupPropertiesClass t _ _ _ => Some t
             | OwnershipClass _ => None
             end) (wu_aspects wu).

(** The time of a record built from the detail [d] in the state [st]: the
    [CreationTime] of the detail, or, without one, the reading of the clock;
    the clock is read once in either case. *)
Definition timestamp_rule (rt : Runtime) (d : pydict) (st : State)
    (wu : MetadataWorkUnit) (st' : State) : Prop :=
  (∀ t, Dict.lookup d "CreationTime" = Some (VDatetime t) →
        wu_timestamp wu = [t]) ∧
  (Dict.lookup d "CreationTime" = None →
   wu_timestamp wu = [clock rt (clock_reads st)]) ∧
  clock_reads st' = S (clock_reads st).

Lemma timestamp_rule_intro rt d st wu st' ms :
  timestamp_ms (Dict.get_default d "CreationTime"
                  (VDatetime (clock rt (clock_reads st)))) = Ok ms →
  wu_timestamp wu = [ms] → clock_reads st' = S (clock_reads st) →
  timestamp_rule rt d st wu st'.
Proof.
  unfold Dict.get_default, timestamp_rule. intros Hms -> Hc.
  split_and!; [| |done].
  - intros t Ht. rewrite Ht in Hms. by injection Hms as ->.
  - intros Ht. rewrite Ht in Hms. by injection Hms as ->.
Qed.

Lemma get_endpoint_status_clock rt n a s st r st' :
  get_endpoint_status rt n a s st = (r, st') → clock_reads st' = clock_reads st.
Proof.
  unfold get_endpoint_status. rewrite bind_lift.
  destruct (table_get ENDPOINT_STATUS_MAP s) as [[c|]|e]; by intros [= <- <-].
Qed.

(** X5. The time of an endpoint, model or group record is the
    [CreationTime] of its detail payload when there is one, and the reading
    of the clock when there is none; building a record reads the clock
    exactly once in both cases. *)
Theorem creation_time_or_clock rt d a2n st wu st' :
  (get_endpoint_wu rt d st = (Ok wu, st') → timestamp_rule rt d st wu st') ∧
  (get_model_wu rt d a2n st = (Ok wu, st') → timestamp_rule rt d st wu st') ∧
  (get_group_wu rt d st = (Ok wu, st') → timestamp_rule rt d st wu st').
Proof.
  split_and!; intros H.
  - unfold get_endpoint_wu in H. inv_run H. apply ret_inv in H as [-> ->].
    match goal with
    | H : Ok (VDatetime _) = Ok _ |- _ => injection H as <-
    end.
    match goal with
    | H : get_endpoint_status _ _ _ _ _ = _ |- _ =>
        apply get_endpoint_status_clock in H
    end.
    by eapply timestamp_rule_intro.
  - apply get_model_wu_inv in H
      as (image & uri & urls & tj & dj & name & ms & _ & _ & _ & _ & _ &
          Hms & _ & _ & Hf & ->).
    eapply timestamp_rule_intro; [done..|]. apply Hf.
  - unfold get_group_wu in H. inv_run H. apply ret_inv in H as [-> ->].
    match goal with
    | H : Ok (VDatetime _) = Ok _ |- _ => injection H as <-
    end.
    by eapply timestamp_rule_intro.
Qed.

Lemma creation_time_or_clock_witness :
  let d := [("ModelPackageGroupName", VStr "G3");
            ("ModelPackageGroupArn", VStr (Fixture.arn "group" "g3"))] in
  let st := {| self := self (Fixture.start false); clock_reads := 7;
               yielded := [] |} in
  let run := get_group_wu rt1 d st in
  timestamp_rule rt1 d st (Fixture.emitted run) run.2 ∧
  wu_timestamp (Fixture.emitted run) = [7%Z].
Proof.
  intros d st run. split.
  - apply (proj2 (proj2 (creation_time_or_clock rt1 d ∅ st
                           (Fixture.emitted run) run.2))).
    vm_compute; reflexivity.
  - vm_compute; reflexivity.
Defined.

(** ** The deployments of a model record *)

(** X6. The deployment list of a model record is built, one URN for one
    ARN, from the ARNs that the Lineage Index files under the image or under
    the model data URL of the primary container and that are keys of the
    index of the endpoint pass; the ARNs are in lexicographic order, none
    occurs twice, and an ARN that is no key of the index is left out without
    an error. *)
Theorem model_deployments_are_the_indexed_arns rt d a2n st wu st' :
  get_model_wu rt d a2n st = (Ok wu, st') →
  ∃ image uri arns,
    primary_field "Image" d = Ok image ∧
    primary_field "ModelDataUrl" d = Ok uri ∧
    wu_deployments wu =
      [(λ a, make_ml_model_deployment_urn rt "sagemaker" a (env (self st)))
         <$> arns] ∧
    StronglySorted String.le arns ∧ NoDup arns ∧
    ∀ a, a ∈ arns ↔
      (a ∈ arns_under (model_image_endpoints (lineage (self st))) image ∨
       a ∈ arns_under (model_uri_endpoints (lineage (self st))) uri) ∧
      a ∈ dom a2n.
Proof.
  intros H. apply get_model_wu_inv in H
    as (image & uri & urls & tj & dj & name & ms & Hi & Hu & _ & _ & _ &
        _ & _ & _ & _ & ->).
  eexists image, uri, _. split; [done|]. split; [done|].
  split; [reflexivity|]. split; [apply py_sorted_sorted|].
  split; [apply py_sorted_NoDup, NoDup_filter, set_iter_NoDup|].
  intros a.
  rewrite py_sorted_elem_of, list_elem_of_filter, set_iter_elem_of,
    elem_of_union.
  tauto.
Qed.

Lemma model_deployments_are_the_indexed_arns_witness :
  let a2n : gmap string value :=
    {[ Fixture.arn "endpoint" "ep-a" := VStr "ep-a" ]} in
  let run := get_model_wu rt1 Fixture.model_1_details a2n
               (Fixture.start false) in
  (∃ image uri arns,
    primary_field "Image" Fixture.model_1_details = Ok image ∧
    primary_field "ModelDataUrl" Fixture.model_1_details = Ok uri ∧
    wu_deployments (Fixture.emitted run) =
      [(λ a, make_ml_model_deployment_urn rt1 "sagemaker" a
               (env (self (Fixture.start false)))) <$> arns] ∧
    StronglySorted String.le arns ∧ NoDup arns ∧
    ∀ a, a ∈ arns ↔
      (a ∈ arns_under
             (model_image_endpoints (lineage (self (Fixture.start false))))
             image ∨
       a ∈ arns_under
             (model_uri_endpoints (lineage (self (Fixture.start false))))
             uri) ∧
      a ∈ dom a2n) ∧
  wu_deployments (Fixture.emitted run) =
    [[urn_of "mlModelDeployment" "sagemaker"
        (Fixture.arn "endpoint" "ep-a") "PROD"]].
Proof.
  intros a2n run. split.
  - apply (model_deployments_are_the_indexed_arns rt1
             Fixture.model_1_details a2n (Fixture.start false)
             (Fixture.emitted run) run.2).
    vm_compute; reflexivity.
  - vm_compute; reflexivity.
Defined.

Lemma wu_deployments_model_wu_of rt d a2n e eps tj dj name ms :
  wu_deployments (model_wu_of rt d a2n e eps tj dj name ms) =
    [(λ a, make_ml_model_deployment_urn rt "sagemaker" a e) <$>
       py_sorted (filter (λ x, x ∈ dom a2n) (set_iter rt eps))].
Proof. reflexivity. Qed.

(** X7. A model detail without [PrimaryContainer] yields a record with an
    empty deployment list and writes neither side table. *)
Theorem model_without_primary_container rt d a2n st wu st' :
  Dict.lookup d "PrimaryContainer" = None →
  get_model_wu rt d a2n st = (Ok wu, st') →
  wu_deployments wu = [[]] ∧
  model_uri_to_name (self st') = model_uri_to_name (self st) ∧
  model_image_to_name (self st') = model_image_to_name (self st).
Proof.
  intros Hp H. apply get_model_wu_inv in H
    as (image & uri & urls & tj & dj & name & ms & Hi & Hu & _ & _ & _ &
        _ & Hti & Htu & _ & ->).
  unfold Dict.get_default in Hi, Hu. rewrite Hp in Hi, Hu.
  injection Hi as <-. injection Hu as <-.
  split; [|done]. rewrite wu_deployments_model_wu_of.
  cbn [Dict.get Dict.get_default Dict.lookup arns_under].
  rewrite (left_id_L ∅ (∪)).
  pose proof (set_iter_perm rt ∅) as Hperm. rewrite elements_empty in Hperm.
  apply Permutation_nil_r in Hperm. by rewrite Hperm.
Qed.

Lemma model_without_primary_container_witness :
  let d := [("ModelName", VStr "M4"); ("CreationTime", VDatetime 8000)] in
  let run := get_model_wu rt0 d ∅ Fixture.after_models in
  run.1 = Ok (Fixture.emitted run) ∧
  wu_deployments (Fixture.emitted run) = [[]] ∧
  model_uri_to_name (self run.2) = model_uri_to_name (self Fixture.after_models) ∧
  model_image_to_name (self run.2) =
    model_image_to_name (self Fixture.after_models).
Proof.
  intros d run. split; [vm_compute; reflexivity|].
  apply (model_without_primary_container rt0 d ∅ Fixture.after_models
           (Fixture.emitted run) run.2);
    vm_compute; reflexivity.
Defined.

(** ** The member models of a group *)

Lemma index_where_ok rt (d guard : gmap string string) (xs : gset string) :
  is_ok (index_where rt d guard xs) = true ↔
  ∀ x, x ∈ xs → x ∈ dom guard → x ∈ dom d.
Proof.
  unfold index_where.
  set (l := filter (λ x, x ∈ dom guard) (set_iter rt xs)).
  assert (Forall (λ x, is_Some (d !! x)) l ↔
          ∀ x, x ∈ xs → x ∈ dom guard → x ∈ dom d) as Hl.
  { rewrite Forall_forall. unfold l. split.
    - intros H x Hx Hg. apply elem_of_dom, H, list_elem_of_filter.
      by rewrite set_iter_elem_of.
    - intros H x [Hg Hx]%list_elem_of_filter.
      apply elem_of_dom, H; [|done]. by apply set_iter_elem_of in Hx. }
  rewrite <-Hl. clear Hl.
  destruct (decide (Forall (λ x, is_Some (d !! x)) l)) as [H|H].
  - by rewrite (index_all_Forall d l H).
  - destruct (index_all_not_Forall d l H) as [e ->]. simpl. split; [done|].
    intros H'. by destruct H.
Qed.

Lemma index_where_names rt (d guard : gmap string string) (xs : gset string)
    names n :
  index_where rt d guard xs = Ok names →
  n ∈ names ↔ ∃ x, x ∈ xs ∧ x ∈ dom guard ∧ d !! x = Some n.
Proof.
  unfold index_where.
  set (l := filter (λ x, x ∈ dom guard) (set_iter rt xs)).
  destruct (decide (Forall (λ x, is_Some (d !! x)) l)) as [H|H].
  - rewrite (index_all_Forall d l H). intros [= <-].
    rewrite elem_of_list_to_set, list_elem_of_omap. unfold l.
    split.
    + intros (x & [Hg Hx]%list_elem_of_filter & Hn).
      apply set_iter_elem_of in Hx. eauto.
    + intros (x & Hx & Hg & Hn). exists x. split; [|done].
      apply list_elem_of_filter. by rewrite set_iter_elem_of.
  - by destruct (index_all_not_Forall d l H) as [e ->].
Qed.

(** X8. The member names of a group are resolved without an error exactly
    when every image of the group that is a key of [model_uri_to_name] is a
    key of [model_image_to_name] too.  They are then the names that
    [model_uri_to_name] holds for the model uris of the group, and the names
    that [model_image_to_name] holds for those images of the group that are
    keys of [model_uri_to_name]; a group that the Lineage Index does not
    know has no member. *)
Theorem group_members_resolved rt p arn :
  (is_ok (group_model_names rt p (VStr arn)) = true ↔
   ∀ x, x ∈ default ∅ (group_model_images (lineage p) !! arn) →
        x ∈ dom (model_uri_to_name p) → x ∈ dom (model_image_to_name p)) ∧
  ∀ names, group_model_names rt p (VStr arn) = Ok names →
    ∀ n, n ∈ names ↔
      (∃ x, x ∈ default ∅ (group_model_uris (lineage p) !! arn) ∧
            model_uri_to_name p !! x = Some n) ∨
      (∃ x, x ∈ default ∅ (group_model_images (lineage p) !! arn) ∧
            x ∈ dom (model_uri_to_name p) ∧
            model_image_to_name p !! x = Some n).
Proof.
  unfold group_model_names. rewrite !table_get_str.
  change (Ok ?a ≫= ?f) with (f a). cbv beta.
  assert (∃ unames,
    match group_model_uris (lineage p) !! arn with
    | Some model_uris =>
        names ← index_where rt (model_uri_to_name p) (model_uri_to_name p)
                  model_uris;
        mret ((∅ : gset string) ∪ names)
    | None => mret ∅
    end = Ok unames ∧
    ∀ n, n ∈ unames ↔
      ∃ x, x ∈ default ∅ (group_model_uris (lineage p) !! arn) ∧
           model_uri_to_name p !! x = Some n) as (unames & -> & Hu).
  { destruct (group_model_uris (lineage p) !! arn) as [uris|]; simpl.
    - destruct (index_where_self rt (model_uri_to_name p) uris)
        as (names & Hn).
      rewrite Hn. eexists. split; [reflexivity|]. intros n.
      rewrite (left_id_L ∅ (∪)), (index_where_names _ _ _ _ _ n Hn).
      split; [intros (x & ? & ? & ?); eauto|].
      intros (x & ? & Hx). exists x. split; [done|].
      split; [|done]. apply elem_of_dom. eauto.
    - exists ∅. split; [done|]. intros n. split; [set_solver|].
      intros (x & Hx & _). set_solver. }
  change (Ok ?a ≫= ?f) with (f a). cbv beta.
  destruct (group_model_images (lineage p) !! arn) as [images|]; simpl.
  - pose proof (index_where_ok rt (model_image_to_name p)
                  (model_uri_to_name p) images) as Hok.
    destruct (index_where rt (model_image_to_name p) (model_uri_to_name p)
                images) as [inames|e] eqn:Hi; simpl in *.
    + split; [done|]. intros names [= <-] n.
      rewrite elem_of_union, Hu, (index_where_names _ _ _ _ _ n Hi). done.
    + split; [done|]. intros names [=].
  - split; [split; [set_solver|done]|]. intros names [= <-] n.
    rewrite Hu. split; [by left|]. intros [?|(x & Hx & _)]; [done|].
    set_solver.
Qed.

Lemma group_members_resolved_witness :
  let p := self Fixture.after_models in
  let names : gset string :=
    match group_model_names rt0 p (VStr (Fixture.arn "group" "g1")) with
    | Ok names => names
    | Err _ => ∅
    end in
  group_model_names rt0 p (VStr (Fixture.arn "group" "g1")) = Ok names ∧
  ∀ n, n ∈ names ↔
    (∃ x, x ∈ default ∅ (group_model_uris (lineage p)
                            !! Fixture.arn "group" "g1") ∧
          model_uri_to_name p !! x = Some n) ∨
    (∃ x, x ∈ default ∅ (group_model_images (lineage p)
                            !! Fixture.arn "group" "g1") ∧
          x ∈ dom (model_uri_to_name p) ∧
          model_image_to_name p !! x = Some n).
Proof.
  intros p names.
  assert (group_model_names rt0 p (VStr (Fixture.arn "group" "g1"))
          = Ok names) as H by (vm_compute; reflexivity).
  split; [exact H|].
  exact (proj2 (group_members_resolved rt0 p (Fixture.arn "group" "g1"))
           names H).
Defined.

(** ** The owner of a group *)

(** X9. A group detail whose [CreatedBy] is a dictionary without
    [UserProfileName], or with a null one, yields a record without owner; a
    [CreatedBy] that is no dictionary makes the record fail with
    [AttributeError] once the members of the group are resolved, and the
    state of the run is as it was. *)
Theorem group_creator_without_profile_name rt g st :
  (∀ cb wu st',
     Dict.lookup g "CreatedBy" = Some (VDict cb) →
     Dict.get cb "UserProfileName" = VNone →
     get_group_wu rt g st = (Ok wu, st') → wu_owners wu = [[]]) ∧
  (∀ v arn names,
     Dict.lookup g "CreatedBy" = Some v → (∀ cb, v ≠ VDict cb) →
     Dict.lookup g "ModelPackageGroupArn" = Some arn →
     group_model_names rt (self st) arn = Ok names →
     get_group_wu rt g st = (Err AttributeError, st)).
Proof.
  split.
  - intros cb wu st' Hc Hn H.
    apply get_group_wu_inv in H as (arn & names & owners & _ & _ & Ho & -> & _).
    unfold group_owners, Dict.get_default in Ho. rewrite Hc in Ho.
    simpl in Ho. rewrite Hn in Ho. by injection Ho as <-.
  - intros v arn names Hc Hv Harn Hnames. unfold get_group_wu.
    rewrite bind_get_self, bind_lift, (getitem_lookup _ _ _ Harn), bind_lift,
      Hnames, bind_lift.
    unfold group_owners, Dict.get_default. rewrite Hc.
    destruct v; try done. by destruct (Hv d).
Qed.

Lemma group_creator_without_profile_name_witness :
  let g := [("ModelPackageGroupName", VStr "G3");
            ("ModelPackageGroupArn", VStr (Fixture.arn "group" "g3"));
            ("CreatedBy", VDict [("DomainId", VStr "d-1")]);
            ("CreationTime", VDatetime 9000)] in
  let g' := [("ModelPackageGroupName", VStr "G3");
             ("ModelPackageGroupArn", VStr (Fixture.arn "group" "g3"));
             ("CreatedBy", VNone)] in
  wu_owners (Fixture.emitted (get_group_wu rt0 g Fixture.after_models))
    = [[]] ∧
  get_group_wu rt0 g' Fixture.after_models
    = (Err AttributeError, Fixture.after_models).
Proof.
  intros g g'. split.
  - apply (proj1 (group_creator_without_profile_name rt0 g Fixture.after_models)
             [("DomainId", VStr "d-1")] _
             (get_group_wu rt0 g Fixture.after_models).2);
      vm_compute; reflexivity.
  - apply (proj2 (group_creator_without_profile_name rt0 g'
                    Fixture.after_models)
             VNone (VStr (Fixture.arn "group" "g3")) ∅).
    + reflexivity.
    + intros cb. discriminate.
    + reflexivity.
    + vm_compute; reflexivity.
Defined.

(** ** A status that is no string *)

(** X10. An endpoint detail whose [EndpointStatus] is null, a number or a
    time yields a record of status [UNKNOWN] and one more warning, as for an
    unmapped string, whereas a detail without the field yields [UNKNOWN]
    without a warning.  A status that is a list or a dictionary cannot be
    looked up in the status table: the record fails with [TypeError] after
    the clock was read, and nothing is recorded. *)
Theorem status_that_is_no_string rt d st n a v ms :
  Dict.lookup d "EndpointName" = Some n →
  Dict.lookup d "EndpointArn" = Some a →
  Dict.lookup d "EndpointStatus" = Some v →
  timestamp_ms (Dict.get_default d "CreationTime"
                  (VDatetime (clock rt (clock_reads st)))) = Ok ms →
  (v = VNone ∨ (∃ z, v = VInt z) ∨ (∃ t, v = VDatetime t) →
   ∃ wu st', get_endpoint_wu rt d st = (Ok wu, st') ∧
     wu_status wu = [UNKNOWN] ∧
     warnings (report (self st')) =
       warnings (report (self st)) ++
         [(n, "Unknown status for " +:+ py_str rt a +:+ " (" +:+
              py_str rt n +:+ "): " +:+ py_str rt v)]) ∧
  ((∃ l, v = VList l) ∨ (∃ d', v = VDict d') →
   get_endpoint_wu rt d st = (Err TypeError, tick st)).
Proof.
  intros Hn Ha Hs Hms.
  rewrite (get_endpoint_wu_run rt d st n a ms Hn Ha Hms).
  unfold Dict.get_default. rewrite Hs. split.
  - intros [->|[[z ->]|[t ->]]];
      (eexists _, _; split; [reflexivity|]; split; [reflexivity|done]).
  - by intros [[l ->]|[d' ->]].
Qed.

Lemma status_that_is_no_string_witness :
  let d := [("EndpointName", VStr "ep-d");
            ("EndpointArn", VStr (Fixture.arn "endpoint" "ep-d"));
            ("EndpointStatus", VNone);
            ("CreationTime", VDatetime 2600)] in
  let st := Fixture.start false in
  ∃ wu st', get_endpoint_wu rt0 d st = (Ok wu, st') ∧
    wu_status wu = [UNKNOWN] ∧
    warnings (report (self st')) =
      warnings (report (self st)) ++
        [(VStr "ep-d",
          "Unknown status for " +:+
          py_str rt0 (VStr (Fixture.arn "endpoint" "ep-d")) +:+ " (" +:+
          py_str rt0 (VStr "ep-d") +:+ "): " +:+ py_str rt0 VNone)].
Proof.
  intros d st.
  apply (proj1 (status_that_is_no_string rt0 d st (VStr "ep-d")
                  (VStr (Fixture.arn "endpoint" "ep-d")) VNone 2600
                  eq_refl eq_refl eq_refl eq_refl)).
  by left.
Defined.

(** ** What every call of a scan preserves *)

(** A call whose final state is related by [R] to its initial state, whether
    it returns or raises. *)
Definition stable {A} (R : State → State → Prop) (m : M A) : Prop :=
  ∀ st, R st (m st).2.

Section stable.
Context (R : State → State → Prop) `{!Reflexive R, !Transitive R}.

Lemma stable_bind {A B} (m : M A) (f : A → M B) :
  stable R m → (∀ a, stable R (f a)) → stable R (m ≫= f).
Proof.
  intros Hm Hf st. rewrite bind_step. specialize (Hm st).
  destruct (m st) as [[a|e] st1]; simpl in *; [|done].
  by etrans; [|apply Hf].
Qed.

Lemma stable_lift {A} (r : result A) : stable R (lift r).
Proof. by intros st. Qed.

Lemma stable_ret {A} (a : A) : stable R (mret a).
Proof. by intros st. Qed.

Lemma stable_get_self : stable R get_self.
Proof. by intros st. Qed.

Lemma stable_let_pair {A B C} (p : A * B) (f : A → B → M C) :
  (∀ a b, stable R (f a b)) → stable R (let '(a, b) := p in f a b).
Proof. intros Hf. by destruct p. Qed.

Lemma stable_endpoint_loop rt xs a2n :
  (∀ x a, stable R (endpoint_step rt x a)) →
  stable R (endpoint_loop rt xs a2n).
Proof.
  intros Hs. revert a2n. induction xs as [|x xs IH]; intros a2n; simpl.
  - apply stable_ret.
  - apply stable_bind; [apply Hs|intros ?; apply IH].
Qed.

Lemma stable_model_loop rt xs a2n :
  (∀ x, stable R (model_step rt x a2n)) → stable R (model_loop rt xs a2n).
Proof.
  intros Hs. induction xs as [|x xs IH]; simpl.
  - apply stable_ret.
  - apply stable_bind; [apply Hs|intros ?; apply IH].
Qed.

Lemma stable_group_loop rt xs :
  (∀ x, stable R (group_step rt x)) → stable R (group_loop rt xs).
Proof.
  intros Hs. induction xs as [|x xs IH]; simpl.
  - apply stable_ret.
  - apply stable_bind; [apply Hs|intros ?; apply IH].
Qed.
End stable.

(** One step of a proof that a call of the processor is [stable]: the body
    of the call is opened, and [tac] has to relate the states of a reading
    of the clock, of a write to the processor and of a [yield]. *)
Ltac stable_step tac :=
  lazymatch goal with
  | |- stable _ (lift _) => apply stable_lift
  | |- stable _ (mret _) => apply stable_ret
  | |- stable _ get_self => apply stable_get_self
  | |- stable _ (_ ≫= _) => apply stable_bind; [| |intros ?]
  | |- stable _ (let '(_, _) := _ in _) => apply stable_let_pair; intros ? ?
  | |- stable _ (match ?x with _ => _ end) => destruct x
  | |- stable _ (datetime_now _) => intros ?; tac
  | |- stable _ (modify_self _) => intros ?; tac
  | |- stable _ (yield _) => intros ?; tac
  | |- stable _ (Report.report_warning _ _) => unfold Report.report_warning
  | |- stable _ Report.report_endpoint_scanned =>
      unfold Report.report_endpoint_scanned
  | |- stable _ Report.report_model_scanned =>
      unfold Report.report_model_scanned
  | |- stable _ Report.report_group_scanned =>
      unfold Report.report_group_scanned
  | |- stable _ (Report.report_workunit _) => unfold Report.report_workunit
  | |- stable _ get_all_endpoints => unfold get_all_endpoints
  | |- stable _ get_all_models => unfold get_all_models
  | |- stable _ get_all_groups => unfold get_all_groups
  | |- stable _ (get_endpoint_details _) => unfold get_endpoint_details
  | |- stable _ (get_model_details _) => unfold get_model_details
  | |- stable _ (get_group_details _) => unfold get_group_details
  | |- stable _ (get_endpoint_status _ _ _ _) => unfold get_endpoint_status
  | |- stable _ (get_endpoint_wu _ _) => unfold get_endpoint_wu
  | |- stable _ (endpoints_by_image _ _ _) => unfold endpoints_by_image
  | |- stable _ (endpoints_by_uri _ _ _) => unfold endpoints_by_uri
  | |- stable _ (get_model_wu _ _ _) => unfold get_model_wu
  | |- stable _ (get_group_wu _ _) => unfold get_group_wu
  | |- stable _ (endpoint_step _ _ _) => unfold endpoint_step
  | |- stable _ (model_step _ _ _) => unfold model_step
  | |- stable _ (group_step _ _) => unfold group_step
  | |- stable _ (endpoint_loop _ _ _) =>
      apply stable_endpoint_loop; [| |intros ? ?]
  | |- stable _ (model_loop _ _ _) => apply stable_model_loop; [| |intros ?]
  | |- stable _ (group_loop _ _) => apply stable_group_loop; [| |intros ?]
  | |- stable _ (get_workunits _) => unfold get_workunits
  | |- Reflexive _ => apply _
  | |- Transitive _ => apply _
  end.

Ltac stable_with tac := repeat stable_step tac.

(** *** The inputs of a scan *)

(** The client, [env] and the two job mappings of the processor are the
    same in both states. *)
Definition inputs_kept (st st' : State) : Prop :=
  sagemaker_client (self st') = sagemaker_client (self st) ∧
  env (self st') = env (self st) ∧
  model_image_to_jobs (self st') = model_image_to_jobs (self st) ∧
  model_name_to_jobs (self st') = model_name_to_jobs (self st).

#[local] Instance inputs_kept_refl : Reflexive inputs_kept.
Proof. by repeat split. Qed.

#[local] Instance inputs_kept_trans : Transitive inputs_kept.
Proof.
  unfold inputs_kept. intros st1 st2 st3 (?&?&?&?) (?&?&?&?).
  repeat split; congruence.
Qed.

(** X11. A scan never writes the client, [env] or the two job mappings of
    the processor, whether it returns or raises; what it writes are the
    report and the two side tables. *)
Theorem scan_leaves_inputs_alone rt st :
  inputs_kept st (get_workunits rt st).2.
Proof.
  assert (stable inputs_kept (get_workunits rt)) as Hs; [|apply Hs].
  stable_with ltac:(by repeat split).
Qed.

(** *** The records reported and the records yielded *)

(** The report has counted and listed exactly the records yielded so far. *)
Definition accounted (st : State) : Prop :=
  workunit_ids (report (self st)) = id <$> yielded st ∧
  workunits_produced (report (self st)) = length (yielded st).

(** Neither a record was reported nor one yielded between the two states. *)
Definition records_kept (st st' : State) : Prop :=
  workunit_ids (report (self st')) = workunit_ids (report (self st)) ∧
  workunits_produced (report (self st')) = workunits_produced (report (self st)) ∧
  yielded st' = yielded st.

#[local] Instance records_kept_refl : Reflexive records_kept.
Proof. by repeat split. Qed.

#[local] Instance records_kept_trans : Transitive records_kept.
Proof.
  unfold records_kept. intros st1 st2 st3 (?&?&?) (?&?&?).
  repeat split; congruence.
Qed.

(** A call that keeps the invariant [I], whether it returns or raises. *)
Definition holds {A} (I : State → Prop) (m : M A) : Prop :=
  ∀ st, I st → I (m st).2.

Lemma holds_bind {A B} I (m : M A) (f : A → M B) :
  holds I m → (∀ a, holds I (f a)) → holds I (m ≫= f).
Proof.
  intros Hm Hf st Hst. rewrite bind_step. specialize (Hm st Hst).
  destruct (m st) as [[a|e] st1]; simpl in *; [|done]. by apply Hf.
Qed.

Lemma holds_ret {A} I (a : A) : holds I (mret a).
Proof. by intros st. Qed.

Lemma holds_records_kept {A} (m : M A) :
  stable records_kept m → holds accounted m.
Proof.
  intros Hm st [Hi Hn]. destruct (Hm st) as (Hi' & Hn' & Hy').
  split; congruence.
Qed.

Lemma holds_report_yield {A} wu (k : M A) :
  stable records_kept k →
  holds accounted (Report.report_workunit wu;; yield wu;; k).
Proof.
  intros Hk st [Hi Hn]. apply (holds_records_kept k Hk). split; simpl.
  - by rewrite Hi, fmap_app.
  - rewrite Hn, length_app. simpl. lia.
Qed.

Lemma holds_report_yield_end wu :
  holds accounted (Report.report_workunit wu;; yield wu).
Proof.
  intros st [Hi Hn]. split; simpl.
  - by rewrite Hi, fmap_app.
  - rewrite Hn, length_app. simpl. lia.
Qed.

Ltac records_kept := solve [stable_with ltac:(by repeat split)].

Ltac accounted_step :=
  first
    [ apply holds_report_yield_end
    | apply holds_report_yield; records_kept
    | apply holds_records_kept; records_kept
    | apply holds_bind; [apply holds_records_kept; records_kept|intros ?] ].

Lemma holds_endpoint_step rt x a2n : holds accounted (endpoint_step rt x a2n).
Proof. unfold endpoint_step. repeat accounted_step. Qed.

Lemma holds_model_step rt x a2n : holds accounted (model_step rt x a2n).
Proof. unfold model_step. repeat accounted_step. Qed.

Lemma holds_group_step rt x : holds accounted (group_step rt x).
Proof. unfold group_step. repeat accounted_step. Qed.

Lemma holds_endpoint_loop rt xs a2n : holds accounted (endpoint_loop rt xs a2n).
Proof.
  revert a2n. induction xs as [|x xs IH]; intros a2n; simpl.
  - apply holds_ret.
  - apply holds_bind; [apply holds_endpoint_step|intros ?; apply IH].
Qed.

Lemma holds_model_loop rt xs a2n : holds accounted (model_loop rt xs a2n).
Proof.
  induction xs as [|x xs IH]; simpl.
  - apply holds_ret.
  - apply holds_bind; [apply holds_model_step|intros ?; apply IH].
Qed.

Lemma holds_group_loop rt xs : holds accounted (group_loop rt xs).
Proof.
  induction xs as [|x xs IH]; simpl.
  - apply holds_ret.
  - apply holds_bind; [apply holds_group_step|intros ?; apply IH].
Qed.

(** X12. Every record of a scan is reported exactly once, just before it is
    yielded: when the report has counted and listed, in order, the
    identifiers of the records yielded before the scan, it has done so for
    the records yielded by the end of the scan, whether the scan returns or
    raises. *)
Theorem every_yielded_record_is_reported rt st :
  accounted st → accounted (get_workunits rt st).2.
Proof.
  revert st. change (holds accounted (get_workunits rt)).
  unfold get_workunits.
  do 2 accounted_step.
  apply holds_bind; [apply holds_endpoint_loop|intros ?].
  do 2 accounted_step.
  apply holds_bind; [apply holds_model_loop|intros ?].
  do 2 accounted_step.
  apply holds_group_loop.
Qed.

Lemma every_yielded_record_is_reported_witness :
  accounted (get_workunits rt0 (Fixture.start false)).2 ∧
  workunit_ids (report (self (get_workunits rt0 (Fixture.start false)).2))
    = ["ep-a"; "ep-b"; "M1"; "M2"; "G1"].
Proof.
  split.
  - apply (every_yielded_record_is_reported rt0 (Fixture.start false)).
    split; reflexivity.
  - vm_compute; reflexivity.
Defined.

(** *** The counters of a scan that returns *)

(** The four counters of the report. *)
Definition counters (st : State) : nat * nat * nat * nat :=
  (endpoints_scanned (report (self st)), models_scanned (report (self st)),
   groups_scanned (report (self st)), workunits_produced (report (self st))).

Definition counters_kept (st st' : State) : Prop := counters st' = counters st.

#[local] Instance counters_kept_refl : Reflexive counters_kept.
Proof. by intros st. Qed.

#[local] Instance counters_kept_trans : Transitive counters_kept.
Proof. unfold counters_kept. intros st1 st2 st3 ? ?. congruence. Qed.

Lemma counters_kept_run {A} (m : M A) st r st' :
  stable counters_kept m → m st = (r, st') → counters st' = counters st.
Proof. intros Hm H. specialize (Hm st). by rewrite H in Hm. Qed.

Ltac counters_kept := solve [stable_with ltac:(reflexivity)].

(** The counters after [e] endpoints, [m] models and [g] groups more. *)
Definition counted (e m g : nat) (st st' : State) : Prop :=
  counters st' =
    (endpoints_scanned (report (self st)) + e,
     models_scanned (report (self st)) + m,
     groups_scanned (report (self st)) + g,
     workunits_produced (report (self st)) + (e + m + g)).

Lemma counted_kept st st' : counters st' = counters st → counted 0 0 0 st st'.
Proof.
  unfold counted. intros ->. unfold counters. by rewrite !Nat.add_0_r.
Qed.

Lemma counted_trans e1 m1 g1 e2 m2 g2 st1 st2 st3 :
  counted e1 m1 g1 st1 st2 → counted e2 m2 g2 st2 st3 →
  counted (e1 + e2) (m1 + m2) (g1 + g2) st1 st3.
Proof.
  unfold counted, counters. intros [= H1 H2 H3 H4] [= -> -> -> ->].
  rewrite H1, H2, H3, H4. f_equal; [f_equal; [f_equal|]|]; lia.
Qed.

Lemma endpoint_step_counted rt x a2n st a2n' st' :
  endpoint_step rt x a2n st = (Ok a2n', st') → counted 1 0 0 st st'.
Proof.
  intros H. unfold endpoint_step in H. inv_run H.
  apply ret_inv in H as [-> ->]. quiet_facts.
  match goal with
  | H : get_endpoint_wu ?rt ?d _ = _ |- _ =>
      apply (counters_kept_run (get_endpoint_wu rt d) _ _ _
               ltac:(counters_kept)) in H
  end.
  subst. unfold counted, counters in *. simpl in *. simplify_eq.
  f_equal; [f_equal; [f_equal|]|]; lia.
Qed.

Lemma model_step_counted rt x a2n st u st' :
  model_step rt x a2n st = (Ok u, st') → counted 0 1 0 st st'.
Proof.
  intros H. unfold model_step in H. inv_run H. quiet_facts.
  match goal with
  | H : get_model_wu ?rt ?d ?a _ = _ |- _ =>
      apply (counters_kept_run (get_model_wu rt d a) _ _ _
               ltac:(counters_kept)) in H
  end.
  subst. unfold counted, counters in *. simpl in *. simplify_eq.
  f_equal; [f_equal; [f_equal|]|]; lia.
Qed.

Lemma group_step_counted rt x st u st' :
  group_step rt x st = (Ok u, st') → counted 0 0 1 st st'.
Proof.
  intros H. unfold group_step in H. inv_run H. quiet_facts.
  match goal with
  | H : get_group_wu ?rt ?d _ = _ |- _ =>
      apply (counters_kept_run (get_group_wu rt d) _ _ _
               ltac:(counters_kept)) in H
  end.
  subst. unfold counted, counters in *. simpl in *. simplify_eq.
  f_equal; [f_equal; [f_equal|]|]; lia.
Qed.

Lemma endpoint_loop_counted rt xs a2n st a2n' st' :
  endpoint_loop rt xs a2n st = (Ok a2n', st') →
  counted (length xs) 0 0 st st'.
Proof.
  revert a2n st. induction xs as [|x xs IH]; intros a2n st H; simpl in H.
  - apply ret_inv in H as [-> ->]. by apply counted_kept.
  - apply bind_inv in H as (a & st1 & Hx & H).
    apply endpoint_step_counted in Hx. apply IH in H.
    apply (counted_trans _ _ _ _ _ _ _ _ _ Hx H).
Qed.

Lemma model_loop_counted rt xs a2n st u st' :
  model_loop rt xs a2n st = (Ok u, st') → counted 0 (length xs) 0 st st'.
Proof.
  revert st. induction xs as [|x xs IH]; intros st H; simpl in H.
  - apply ret_inv in H as [-> ->]. by apply counted_kept.
  - apply bind_inv in H as (a & st1 & Hx & H).
    apply model_step_counted in Hx. apply IH in H.
    apply (counted_trans _ _ _ _ _ _ _ _ _ Hx H).
Qed.

Lemma group_loop_counted rt xs st u st' :
  group_loop rt xs st = (Ok u, st') → counted 0 0 (length xs) st st'.
Proof.
  revert st. induction xs as [|x xs IH]; intros st H; simpl in H.
  - apply ret_inv in H as [-> ->]. by apply counted_kept.
  - apply bind_inv in H as (a & st1 & Hx & H).
    apply group_step_counted in Hx. apply IH in H.
    apply (counted_trans _ _ _ _ _ _ _ _ _ Hx H).
Qed.

(** X13. A scan that returns has yielded one record for every endpoint,
    model and group that the client lists, and its report counts each
    listed endpoint, model and group as scanned once and each record as
    produced once. *)
Theorem scan_counts_every_listed_entity rt st u st' :
  get_workunits rt st = (Ok u, st') →
  ∃ l_e l_m l_g,
    get_all_endpoints st = (Ok l_e, st) ∧
    get_all_models st = (Ok l_m, st) ∧
    get_all_groups st = (Ok l_g, st) ∧
    length (yielded st') =
      length (yielded st) + (length l_e + length l_m + length l_g) ∧
    counted (length l_e) (length l_m) (length l_g) st st'.
Proof.
  intros H.
  pose proof (get_workunits_emits _ _ _ _ H)
    as (_ & wus & Hy & es & ms & gs & wes & wms & wgs &
        [(l_e & He & Hpe) _] & [(l_m & Hm & Hpm) _] & [(l_g & Hg & Hpg) _] &
        -> & Hwe & Hwm & Hwg).
  exists l_e, l_m, l_g.
  rewrite get_all_endpoints_listing, get_all_models_listing,
    get_all_groups_listing, He, Hm, Hg.
  do 3 (split; [done|]). split.
  - rewrite Hy, !length_app.
    apply Forall2_length in Hwe, Hwm, Hwg.
    apply Permutation_length in Hpe, Hpm, Hpg. lia.
  - unfold get_workunits in H.
    apply bind_inv in H as (l_e' & s & He' & H).
    rewrite get_all_endpoints_listing, He in He'. injection He' as <- <-.
    apply bind_inv in H as (es' & s & Hes & H).
    apply lift_inv in Hes as [Hes ->].
    apply bind_inv in H as (a2n & st1 & Hle & H).
    pose proof (endpoint_loop_emits _ _ _ _ _ _ _ eq_refl Hle)
      as ((Hc1 & _) & _).
    apply endpoint_loop_counted in Hle.
    apply bind_inv in H as (l_m' & s & Hm' & H).
    rewrite get_all_models_listing, Hc1, Hm in Hm'. injection Hm' as <- <-.
    apply bind_inv in H as (ms' & s & Hms & H).
    apply lift_inv in Hms as [Hms ->].
    apply bind_inv in H as (? & st2 & Hlm & H).
    pose proof (model_loop_emits _ _ _ _ _ _ _ eq_refl Hlm)
      as ((Hc2 & _) & _).
    apply model_loop_counted in Hlm.
    apply bind_inv in H as (l_g' & s & Hg' & H).
    rewrite get_all_groups_listing, Hc2, Hc1, Hg in Hg'.
    injection Hg' as <- <-.
    apply bind_inv in H as (gs' & s & Hgs & H).
    apply lift_inv in Hgs as [Hgs ->].
    apply group_loop_counted in H.
    apply sorted_by_field_in_key_order in Hes as [Hes _], Hms as [Hms _],
      Hgs as [Hgs _].
    apply Permutation_length in Hes, Hms, Hgs.
    rewrite Hes in Hle. rewrite Hms in Hlm. rewrite Hgs in H.
    pose proof (counted_trans _ _ _ _ _ _ _ _ _
                  (counted_trans _ _ _ _ _ _ _ _ _ Hle Hlm) H) as Hc.
    by rewrite !Nat.add_0_r in Hc.
Qed.

Lemma scan_counts_every_listed_entity_witness :
  let st := Fixture.start true in
  let st' := (get_workunits rt1 st).2 in
  (∃ l_e l_m l_g,
    get_all_endpoints st = (Ok l_e, st) ∧
    get_all_models st = (Ok l_m, st) ∧
    get_all_groups st = (Ok l_g, st) ∧
    length (yielded st') =
      length (yielded st) + (length l_e + length l_m + length l_g) ∧
    counted (length l_e) (length l_m) (length l_g) st st') ∧
  counters st' = (2, 2, 1, 5).
Proof.
  intros st st'. split.
  - apply (scan_counts_every_listed_entity rt1 st tt st').
    vm_compute; reflexivity.
  - vm_compute; reflexivity.
Defined.

(** ** A client that fails *)

Lemma endpoint_loop_app rt xs ys a2n st :
  endpoint_loop rt (xs ++ ys) a2n st =
    match endpoint_loop rt xs a2n st with
    | (Ok a, st1) => endpoint_loop rt ys a st1
    | (Err e, st1) => (Err e, st1)
    end.
Proof.
  revert a2n st. induction xs as [|x xs IH]; intros a2n st; [done|].
  simpl. rewrite !bind_step.
  destruct (endpoint_step rt x a2n st) as [[a|e] st1]; [apply IH|done].
Qed.

Lemma model_loop_app rt xs ys a2n st :
  model_loop rt (xs ++ ys) a2n st =
    match model_loop rt xs a2n st with
    | (Ok _, st1) => model_loop rt ys a2n st1
    | (Err e, st1) => (Err e, st1)
    end.
Proof.
  revert st. induction xs as [|x xs IH]; intros st; [done|].
  simpl. rewrite !bind_step.
  destruct (model_step rt x a2n st) as [[a|e] st1]; [apply IH|done].
Qed.

Lemma group_loop_app rt xs ys st :
  group_loop rt (xs ++ ys) st =
    match group_loop rt xs st with
    | (Ok _, st1) => group_loop rt ys st1
    | (Err e, st1) => (Err e, st1)
    end.
Proof.
  revert st. induction xs as [|x xs IH]; intros st; [done|].
  simpl. rewrite !bind_step.
  destruct (group_step rt x st) as [[a|e] st1]; [apply IH|done].
Qed.

(** X14. When the client fails to describe an entry of a listing, the pass
    raises the error of the client as it is: the entries before it have
    their records yielded, the failing entry is neither counted as scanned
    nor yielded, and the entries after it are not processed. *)
Theorem pass_stops_at_first_client_error rt xs x ys n e st :
  (∀ a2n a2n1 st1,
     endpoint_loop rt xs a2n st = (Ok a2n1, st1) →
     value_getitem x "EndpointName" = Ok n →
     describe_endpoint (sagemaker_client (self st)) n = Err e →
     endpoint_loop rt (xs ++ x :: ys) a2n st = (Err e, st1)) ∧
  (∀ a2n u st1,
     model_loop rt xs a2n st = (Ok u, st1) →
     value_getitem x "ModelName" = Ok n →
     describe_model (sagemaker_client (self st)) n = Err e →
     model_loop rt (xs ++ x :: ys) a2n st = (Err e, st1)) ∧
  (∀ u st1,
     group_loop rt xs st = (Ok u, st1) →
     value_getitem x "ModelPackageGroupName" = Ok n →
     describe_model_package_group (sagemaker_client (self st)) n = Err e →
     group_loop rt (xs ++ x :: ys) st = (Err e, st1)).
Proof.
  split_and!.
  - intros a2n a2n1 st1 Hxs Hn He.
    pose proof (endpoint_loop_emits _ _ _ _ _ _ _ eq_refl Hxs) as [[Hc _] _].
    rewrite endpoint_loop_app, Hxs.
    change (endpoint_loop rt (x :: ys) a2n1 st1)
      with ((endpoint_step rt x a2n1 ≫= endpoint_loop rt ys) st1).
    rewrite bind_step. unfold endpoint_step.
    rewrite bind_lift, Hn. unfold get_endpoint_details.
    rewrite bind_step, bind_get_self. unfold lift. by rewrite Hc, He.
  - intros a2n u st1 Hxs Hn He.
    pose proof (model_loop_emits _ _ _ _ _ _ _ eq_refl Hxs) as [[Hc _] _].
    rewrite model_loop_app, Hxs.
    change (model_loop rt (x :: ys) a2n st1)
      with ((model_step rt x a2n ≫= λ _, model_loop rt ys a2n) st1).
    rewrite bind_step. unfold model_step.
    rewrite bind_lift, Hn. unfold get_model_details.
    rewrite bind_step, bind_get_self. unfold lift. by rewrite Hc, He.
  - intros u st1 Hxs Hn He.
    pose proof (group_loop_emits _ _ _ _ _ _ eq_refl Hxs) as [[Hc _] _].
    rewrite group_loop_app, Hxs.
    change (group_loop rt (x :: ys) st1)
      with ((group_step rt x ≫= λ _, group_loop rt ys) st1).
    rewrite bind_step. unfold group_step.
    rewrite bind_lift, Hn. unfold get_group_details.
    rewrite bind_step, bind_get_self. unfold lift. by rewrite Hc, He.
Qed.

Lemma pass_stops_at_first_client_error_witness :
  let st := Faulty.start [] [("ep-a", Fixture.endpoint_a_details)] in
  let run := endpoint_loop rt0 [Fixture.endpoint_a] ∅ st in
  endpoint_loop rt0 ([Fixture.endpoint_a] ++ Fixture.endpoint_b :: []) ∅ st
    = (Err (ClientError "ValidationException"), run.2) ∧
  length (yielded run.2) = 1.
Proof.
  intros st run. split; [|vm_compute; reflexivity].
  apply (proj1 (pass_stops_at_first_client_error rt0 [Fixture.endpoint_a]
                  Fixture.endpoint_b [] (VStr "ep-b")
                  (ClientError "ValidationException") st)
           ∅ (default ∅ (match run.1 with Ok a => Some a | Err _ => None end))
           run.2);
    vm_compute; reflexivity.
Defined.

(** ** The index of the endpoint pass *)

Lemma endpoint_step_index rt x a2n st a2n' st' :
  endpoint_step rt x a2n st = (Ok a2n', st') →
  ∃ arn v, value_getitem x "EndpointArn" = Ok (VStr arn) ∧
           a2n' = <[arn := v]> a2n.
Proof.
  intros H. unfold endpoint_step in H. inv_run H.
  apply ret_inv in H as [-> ->].
  match goal with
  | H : _ ≫= as_str = Ok ?a |- _ =>
      apply result_bind_inv in H as (k & Hk & Hs);
      destruct k; try discriminate Hs; injection Hs as ->
  end.
  eauto.
Qed.

(** X15. The index that a returning endpoint pass hands to the model pass
    has, besides the keys it started with, exactly the [EndpointArn] of the
    entries of the listing as keys. *)
Theorem endpoint_index_holds_the_listed_arns rt xs a2n st a2n' st' :
  endpoint_loop rt xs a2n st = (Ok a2n', st') →
  ∀ k, k ∈ dom a2n' ↔
       k ∈ dom a2n ∨
       ∃ x, x ∈ xs ∧ value_getitem x "EndpointArn" = Ok (VStr k).
Proof.
  revert a2n st. induction xs as [|x xs IH]; intros a2n st H k; simpl in H.
  - apply ret_inv in H as [-> ->]. split; [by left|].
    intros [?|(x & Hx & _)]; [done|]. by apply elem_of_nil in Hx.
  - apply bind_inv in H as (a & st1 & Hx & H).
    apply endpoint_step_index in Hx as (arn & v & Harn & ->).
    rewrite (IH _ _ H k), dom_insert, elem_of_union, elem_of_singleton.
    split.
    + intros [[->|?]|(y & Hy & Hk)]; [right|by left|right].
      * exists x. split; [by left|done].
      * exists y. split; [by right|done].
    + intros [?|(y & [->|Hy]%elem_of_cons & Hk)]; [by left; right| |].
      * left; left. congruence.
      * right. eauto.
Qed.

Lemma endpoint_index_holds_the_listed_arns_witness :
  let xs := [Fixture.endpoint_a; Fixture.endpoint_b] in
  let run := endpoint_loop rt0 xs ∅ (Fixture.start false) in
  let a2n := default ∅ (match run.1 with Ok a => Some a | Err _ => None end) in
  (∀ k, k ∈ dom a2n ↔
        k ∈ dom (∅ : gmap string value) ∨
        ∃ x, x ∈ xs ∧ value_getitem x "EndpointArn" = Ok (VStr k)) ∧
  a2n !! Fixture.arn "endpoint" "ep-b" = Some (VStr "ep-b").
Proof.
  intros xs run a2n. split; [|vm_compute; reflexivity].
  apply (endpoint_index_holds_the_listed_arns rt0 xs ∅ (Fixture.start false)
           a2n run.2).
  vm_compute; reflexivity.
Defined.

(** ** What each pass writes *)

(** The two side tables are the same in both states. *)
Definition tables_kept (st st' : State) : Prop :=
  model_uri_to_name (self st') = model_uri_to_name (self st) ∧
  model_image_to_name (self st') = model_image_to_name (self st).

#[local] Instance tables_kept_refl : Reflexive tables_kept.
Proof. by split. Qed.

#[local] Instance tables_kept_trans : Transitive tables_kept.
Proof.
  unfold tables_kept. intros st1 st2 st3 [? ?] [? ?]. split; congruence.
Qed.

(** The warnings of the report are the same in both states. *)
Definition warnings_kept (st st' : State) : Prop :=
  warnings (report (self st')) = warnings (report (self st)).

#[local] Instance warnings_kept_refl : Reflexive warnings_kept.
Proof. by intros st. Qed.

#[local] Instance warnings_kept_trans : Transitive warnings_kept.
Proof. unfold warnings_kept. intros st1 st2 st3 ? ?. congruence. Qed.

(** X16. Only the model pass writes the side tables: listing, the endpoint
    pass and the group pass leave [model_uri_to_name] and
    [model_image_to_name] as they find them, whether they return or raise,
    so that the groups are resolved against the tables as the model pass
    left them. *)
Theorem only_the_model_pass_writes_the_side_tables rt xs a2n st :
  tables_kept st (endpoint_loop rt xs a2n st).2 ∧
  tables_kept st (group_loop rt xs st).2 ∧
  tables_kept st (get_all_endpoints st).2 ∧
  tables_kept st (get_all_models st).2 ∧
  tables_kept st (get_all_groups st).2.
Proof.
  split_and!.
  - assert (stable tables_kept (endpoint_loop rt xs a2n)) as Hs; [|apply Hs].
    stable_with ltac:(by split).
  - assert (stable tables_kept (group_loop rt xs)) as Hs; [|apply Hs].
    stable_with ltac:(by split).
  - assert (stable tables_kept get_all_endpoints) as Hs; [|apply Hs].
    stable_with ltac:(by split).
  - assert (stable tables_kept get_all_models) as Hs; [|apply Hs].
    stable_with ltac:(by split).
  - assert (stable tables_kept get_all_groups) as Hs; [|apply Hs].
    stable_with ltac:(by split).
Qed.

(** X17. Only the endpoint pass records warnings: the model pass and the
    group pass leave the warnings of the report as they find them, whether
    they return or raise; an ARN, a model uri or an image without an entry
    in the index or in a side table is passed over without a warning. *)
Theorem only_the_endpoint_pass_records_warnings rt xs a2n st :
  warnings_kept st (model_loop rt xs a2n st).2 ∧
  warnings_kept st (group_loop rt xs st).2.
Proof.
  split.
  - assert (stable warnings_kept (model_loop rt xs a2n)) as Hs; [|apply Hs].
    stable_with ltac:(reflexivity).
  - assert (stable warnings_kept (group_loop rt xs)) as Hs; [|apply Hs].
    stable_with ltac:(reflexivity).
Qed.

(** ** The custom properties of a record *)

Definition wu_customProperties (wu : MetadataWorkUnit)
  : list (list (string * string)) :=
  omap (λ a, match a with
             | MLModelDeploymentPropertiesClass _ _ c
             | MLModelPropertiesClass _ _ c _ _
             | MLModelGroupPropertiesClass _ _ c _ => Some c
             | OwnershipClass _ => None
             end) (wu_aspects wu).

(** The custom properties [props] hold, in the order of the detail [d], one
    entry for every field of [d] but the field [name] and [CreationTime]:
    the key of the field with the string of its value. *)
Definition properties_rule (rt : Runtime) (name : string) (d : pydict)
    (wu : MetadataWorkUnit) : Prop :=
  ∃ props, wu_customProperties wu = [props] ∧
    props.*1 = filter (λ k, k ≠ name ∧ k ≠ "CreationTime") d.*1 ∧
    ∀ k s, (k, s) ∈ props ↔
      ∃ v, (k, v) ∈ d ∧ k ≠ name ∧ k ≠ "CreationTime" ∧ s = py_str rt v.

Lemma not_redundant (k name : string) :
  k ∉ [name; "CreationTime"] ↔ k ≠ name ∧ k ≠ "CreationTime".
Proof.
  rewrite !not_elem_of_cons. split; [by intros (?&?&_)|].
  intros [? ?]. split_and!; [done..|apply not_elem_of_nil].
Qed.

Lemma custom_properties_keys rt name d :
  (custom_properties rt [name; "CreationTime"] d).*1 =
    filter (λ k, k ≠ name ∧ k ≠ "CreationTime") d.*1.
Proof.
  unfold custom_properties.
  induction d as [|[k v] d IH]; [done|]. csimpl.
  rewrite !filter_cons. simpl.
  destruct (decide (k ∉ [name; "CreationTime"])) as [Hk|Hk],
    (decide (k ≠ name ∧ k ≠ "CreationTime")) as [Hk'|Hk'].
  - csimpl. by rewrite IH.
  - by apply not_redundant in Hk.
  - by apply not_redundant in Hk'.
  - done.
Qed.

Lemma custom_properties_elem rt name d k s :
  (k, s) ∈ custom_properties rt [name; "CreationTime"] d ↔
  ∃ v, (k, v) ∈ d ∧ k ≠ name ∧ k ≠ "CreationTime" ∧ s = py_str rt v.
Proof.
  unfold custom_properties. rewrite list_elem_of_fmap. split.
  - intros ([k' v] & [= -> ->] & [Hk Hd]%list_elem_of_filter).
    exists v. simpl in Hk. apply not_redundant in Hk as [? ?]. done.
  - intros (v & Hd & Hn & Hc & ->). exists (k, v). split; [done|].
    apply list_elem_of_filter. split; [|done]. simpl. by apply not_redundant.
Qed.

Lemma custom_properties_rule rt name d wu :
  wu_customProperties wu = [custom_properties rt [name; "CreationTime"] d] →
  properties_rule rt name d wu.
Proof.
  intros Hwu. eexists. split; [exact Hwu|].
  split; [apply custom_properties_keys|]. intros k s.
  apply custom_properties_elem.
Qed.

(** X18. The custom properties of an endpoint, model or group record hold
    every field of its detail payload, in the order of the payload and with
    the string of its value, except the name of the entity and
    [CreationTime]; the ARN and the status of an endpoint, the containers of
    a model and the description of a group are among them. *)
Theorem custom_properties_drop_name_and_creation_time rt d a2n st wu st' :
  (get_endpoint_wu rt d st = (Ok wu, st') →
   properties_rule rt "EndpointName" d wu) ∧
  (get_model_wu rt d a2n st = (Ok wu, st') →
   properties_rule rt "ModelName" d wu) ∧
  (get_group_wu rt d st = (Ok wu, st') →
   properties_rule rt "ModelPackageGroupName" d wu).
Proof.
  split_and!; intros H; apply custom_properties_rule.
  - unfold get_endpoint_wu in H. inv_run H. by apply ret_inv in H as [-> ->].
  - apply get_model_wu_inv in H
      as (image & uri & urls & tj & dj & name & ms & _ & _ & _ & _ & _ &
          _ & _ & _ & _ & ->).
    reflexivity.
  - unfold get_group_wu in H. inv_run H. by apply ret_inv in H as [-> ->].
Qed.

Lemma custom_properties_drop_name_and_creation_time_witness :
  let run := get_endpoint_wu rt0 Fixture.endpoint_a_details
               (Fixture.start false) in
  properties_rule rt0 "EndpointName" Fixture.endpoint_a_details
                  (Fixture.emitted run) ∧
  wu_customProperties (Fixture.emitted run) =
    [[("EndpointArn", Fixture.arn "endpoint" "ep-a");
      ("EndpointStatus", "InService")]].
Proof.
  intros run. split; [|vm_compute; reflexivity].
  apply (proj1 (custom_properties_drop_name_and_creation_time rt0
                  Fixture.endpoint_a_details ∅ (Fixture.start false)
                  (Fixture.emitted run) run.2)).
  vm_compute; reflexivity.
Defined.

(** ** Two scans, their reports and their side tables *)

(** X19. Two scans of the same API responses, as in C5, end with the same
    report (the same counters, record identifiers and warnings, in the same
    order), with the same side tables and after as many readings of the
    clock, whatever the order of the listings and of the iteration of
    sets. *)
Theorem scan_reports_agree rt1 rt2 st1 st2 :
  same_formats rt1 rt2 → sim_state st1 st2 →
  report (self (get_workunits rt1 st1).2)
    = report (self (get_workunits rt2 st2).2) ∧
  model_uri_to_name (self (get_workunits rt1 st1).2)
    = model_uri_to_name (self (get_workunits rt2 st2).2) ∧
  model_image_to_name (self (get_workunits rt1 st1).2)
    = model_image_to_name (self (get_workunits rt2 st2).2) ∧
  clock_reads (get_workunits rt1 st1).2 = clock_reads (get_workunits rt2 st2).2.
Proof.
  intros Hf Hs.
  destruct (sim_get_workunits rt1 rt2 st1 st2 Hf Hs)
    as [((_ & _ & Hr & _ & _ & _ & Hu & Hi) & Hc & _) _].
  done.
Qed.

Lemma scan_reports_agree_witness :
  report (self (get_workunits rt0 (Fixture.start false)).2)
    = report (self (get_workunits rt1 (Fixture.start true)).2) ∧
  model_uri_to_name (self (get_workunits rt0 (Fixture.start false)).2)
    = model_uri_to_name (self (get_workunits rt1 (Fixture.start true)).2) ∧
  model_image_to_name (self (get_workunits rt0 (Fixture.start false)).2)
    = model_image_to_name (self (get_workunits rt1 (Fixture.start true)).2) ∧
  clock_reads (get_workunits rt0 (Fixture.start false)).2
    = clock_reads (get_workunits rt1 (Fixture.start true)).2.
Proof.
  apply (scan_reports_agree rt0 rt1 (Fixture.start false) (Fixture.start true)).
  - exact fixture_formats.
  - exact fixture_states.
Defined.

(** ** A detail payload without its identity *)

(** X20. An endpoint detail without [EndpointName], a model detail with an
    image and without [ModelName], and a group detail without
    [ModelPackageGroupArn] make the record fail with [KeyError] on the
    missing key; the state of the run is as it was: the clock is not read
    and, for the model, the side table of the image is not written. *)
Theorem detail_without_identity_raises_KeyError rt d a2n st :
  (Dict.lookup d "EndpointName" = None →
   get_endpoint_wu rt d st = (Err (KeyError "EndpointName"), st)) ∧
  (∀ image, primary_field "Image" d = Ok (VStr image) →
   Dict.lookup d "ModelName" = None →
   get_model_wu rt d a2n st = (Err (KeyError "ModelName"), st)) ∧
  (Dict.lookup d "ModelPackageGroupArn" = None →
   get_group_wu rt d st = (Err (KeyError "ModelPackageGroupArn"), st)).
Proof.
  split_and!.
  - intros Hn. unfold get_endpoint_wu.
    rewrite bind_get_self, bind_lift. unfold Dict.getitem. by rewrite Hn.
  - intros image Hi Hn. unfold get_model_wu, primary_field in *.
    rewrite bind_lift, Hi, bind_lift.
    destruct (value_get _ "ModelDataUrl") as [uri|e] eqn:Hu.
    + rewrite bind_step. unfold endpoints_by_image.
      rewrite bind_get_self, bind_lift. simpl. rewrite bind_lift.
      unfold Dict.getitem. by rewrite Hn.
    + destruct (Dict.get_default d "PrimaryContainer" (VDict []));
        discriminate.
  - intros Hn. unfold get_group_wu.
    rewrite bind_get_self, bind_lift. unfold Dict.getitem. by rewrite Hn.
Qed.

Lemma detail_without_identity_raises_KeyError_witness :
  let d := [("PrimaryContainer", VDict [("Image", VStr "i1")])] in
  get_model_wu rt0 d ∅ (Fixture.start false)
    = (Err (KeyError "ModelName"), Fixture.start false).
Proof.
  intros d.
  apply (proj1 (proj2 (detail_without_identity_raises_KeyError rt0 d ∅
                         (Fixture.start false))) "i1");
    reflexivity.
Defined.

(** ** An account without entities *)

(** X21. When the three listings are empty, the scan returns without
    yielding a record, describing an entity or touching the report, the side
    tables or the clock. *)
Theorem scan_of_an_empty_account rt st :
  get_all_endpoints st = (Ok [], st) →
  get_all_models st = (Ok [], st) →
  get_all_groups st = (Ok [], st) →
  get_workunits rt st = (Ok tt, st).
Proof.
  intros He Hm Hg. unfold get_workunits.
  rewrite bind_step, He, bind_lift. simpl.
  rewrite bind_step. simpl.
  rewrite bind_step, Hm, bind_lift. simpl.
  rewrite bind_step. simpl.
  by rewrite bind_step, Hg, bind_lift.
Qed.

Lemma scan_of_an_empty_account_witness :
  let st := Faulty.start
              [VDict [("Endpoints", VList []); ("Models", VList []);
                      ("ModelPackageGroupSummaryList", VList [])]] [] in
  get_workunits rt0 st = (Ok tt, st).
Proof.
  intros st. apply (scan_of_an_empty_account rt0 st); reflexivity.
Defined.

(** ** The side tables after a scan *)





